(** * quiz_app: the registration, login and quiz scoring logic of [app.py]

    A shallow embedding of the request handlers of [app.py] as a state
    monad over the persistent store (the two tables), the client's login
    cookie, the flashed messages and the error log.  What Python draws
    from its environment (the salt of a password hash, a failure of the
    persistence layer) is an explicit input of the request. *)

From stdpp Require Import gmap strings list fin_maps pretty sorting.

Local Open Scope string_scope.
Local Open Scope list_scope.
Local Open Scope nat_scope.

(** ** Data model *)

(** Modelled from the spec: [werkzeug.security] ([generate_password_hash],
    [check_password_hash]) is not part of the repository.  The spec
    describes a salted one-way hash that is verified against the stored
    hash; the stored string is represented by its two components. *)
Record PwHash := { ph_salt : string; ph_digest : string }.

Module User.
(** A persisted row of [class User] (lines 30-33). *)
Record t := mk { id : Z; username : string; password : PwHash }.
(** A [User] object that was not flushed yet: no primary key, and no
    password until [set_password] is called. *)
Record unsaved := new { new_username : string; new_password : option PwHash }.
End User.

Module Quiz.
(** A persisted row of [class Quiz] (lines 105-112). *)
Record t := mk {
  id : Z;
  question : string;
  option_a : string;
  option_b : string;
  option_c : string;
  option_d : string;
  correct_answer : string
}.
(** A [Quiz] object that was not flushed yet. *)
Record unsaved := new {
  new_question : string;
  new_option_a : string;
  new_option_b : string;
  new_option_c : string;
  new_option_d : string;
  new_correct_answer : string
}.
End Quiz.

(** The relational store: one list of rows per table, in rowid order. *)
Record Db := { users : list User.t; quizzes : list Quiz.t }.

(** Objects added to the SQLAlchemy session and not committed yet. *)
Inductive Pending :=
  | PendingUser (u : User.unsaved)
  | PendingQuiz (q : Quiz.unsaved).

(** Exceptions of the persistence layer. *)
Inductive Constraint :=
  | NotNull (column : string)
  | Unique (column : string).

Inductive exn :=
  | IntegrityError (c : Constraint)
  | StorageError (detail : string).

(** A record of [logging.error(f"<prefix>{e}")]. *)
Record LogRecord := { log_prefix : string; log_cause : exn }.

(** What persists between requests: the store, the client's login cookie
    (flask-login keeps the user id in the session), the messages flashed
    so far and the error log. *)
Record World := {
  db : Db;
  cookie : option Z;
  flashed : list string;
  log : list LogRecord
}.

(** The context of one request: the world and the request's SQLAlchemy
    session. *)
Record Ctx := { world : World; pending : list Pending }.

Inductive Method := GET | POST.

(** [request.form] is a werkzeug [MultiDict]: every key holds the list of
    the values submitted under it. *)
Record Request := {
  path : string;
  method : Method;
  form : gmap string (list string)
}.

(** The inputs a request takes from its environment: the salt drawn by
    [generate_password_hash] and whether [db.session.commit()] raises. *)
Record Env := { salt : string; commit_fault : option exn }.

Inductive Response :=
  | Redirect (endpoint : string)
  | RenderTemplate (template : string)
  | RenderQuiz (questions : list Quiz.t) (score : option nat)
  | Text (body : string)
  | ErrorPage (template : string) (status : Z)
  | BadRequest
  | MethodNotAllowed.

Global Instance PwHash_eq_dec : EqDecision PwHash.
Proof. solve_decision. Defined.
Global Instance Constraint_eq_dec : EqDecision Constraint.
Proof. solve_decision. Defined.
Global Instance exn_eq_dec : EqDecision exn.
Proof. solve_decision. Defined.
Global Instance Method_eq_dec : EqDecision Method.
Proof. solve_decision. Defined.

(** ** The request monad *)

Definition M (A : Type) : Type := Ctx → A * Ctx.

Global Instance M_ret : MRet M := λ A a c, (a, c).
Global Instance M_bind : MBind M := λ A B f m c, f (m c).1 (m c).2.

Definition get_db : M Db := λ c, (db (world c), c).

Definition set_world (f : World → World) : M unit :=
  λ c, (tt, {| world := f (world c); pending := pending c |}).

(** The world after [flash(message)]. *)
Definition add_flash (message : string) (w : World) : World :=
  {| db := db w; cookie := cookie w; flashed := flashed w ++ [message]; log := log w |}.

(** The world after [logging.error(f"<prefix>{e}")]. *)
Definition add_log (prefix : string) (e : exn) (w : World) : World :=
  {| db := db w; cookie := cookie w; flashed := flashed w;
     log := log w ++ [{| log_prefix := prefix; log_cause := e |}] |}.

Definition flash (message : string) : M unit := set_world (add_flash message).

Definition logging_error (prefix : string) (e : exn) : M unit :=
  set_world (add_log prefix e).

(** The world after the login cookie is set to [o]. *)
Definition put_cookie (o : option Z) (w : World) : World :=
  {| db := db w; cookie := o; flashed := flashed w; log := log w |}.

Definition set_cookie (o : option Z) : M unit := set_world (put_cookie o).

Definition put_db (d : Db) : World → World :=
  λ w, {| db := d; cookie := cookie w; flashed := flashed w; log := log w |}.

(** ** The persistence layer *)

(** SQLite gives a new row of an INTEGER PRIMARY KEY table the largest
    rowid of the table plus one, and 1 in an empty table. *)
Definition next_id (ids : list Z) : Z :=
  match ids with
  | [] => 1
  | i :: rest => 1 + foldr Z.max i rest
  end%Z.

(** INSERT of a user: [password] is [nullable=False], [username] is
    [unique=True] (lines 32-33). *)
Definition insert_user (u : User.unsaved) (d : Db) : exn + Db :=
  match User.new_password u with
  | None => inl (IntegrityError (NotNull "password"))
  | Some h =>
      if bool_decide (User.new_username u ∈ User.username <$> users d)
      then inl (IntegrityError (Unique "username"))
      else inr {| users := users d ++
                    [User.mk (next_id (User.id <$> users d)) (User.new_username u) h];
                  quizzes := quizzes d |}
  end.

Definition insert_quiz (q : Quiz.unsaved) (d : Db) : exn + Db :=
  inr {| users := users d;
         quizzes := quizzes d ++
           [Quiz.mk (next_id (Quiz.id <$> quizzes d))
              (Quiz.new_question q) (Quiz.new_option_a q) (Quiz.new_option_b q)
              (Quiz.new_option_c q) (Quiz.new_option_d q)
              (Quiz.new_correct_answer q)] |}.

Definition insert (p : Pending) (d : Db) : exn + Db :=
  match p with
  | PendingUser u => insert_user u d
  | PendingQuiz q => insert_quiz q d
  end.

(** The flush of a commit: the pending objects are inserted in the order
    they were added; the first failing INSERT aborts the transaction. *)
Fixpoint flush (ps : list Pending) (d : Db) : exn + Db :=
  match ps with
  | [] => inr d
  | p :: ps' =>
      match insert p d with
      | inl e => inl e
      | inr d' => flush ps' d'
      end
  end.

(** [db.session.add(obj)] *)
Definition session_add (p : Pending) : M unit :=
  λ c, (tt, {| world := world c; pending := pending c ++ [p] |}).

(** [db.session.add_all(objs)] *)
Definition session_add_all (ps : list Pending) : M unit :=
  λ c, (tt, {| world := world c; pending := pending c ++ ps |}).

(** [db.session.commit()]: a transaction.  It raises when the persistence
    layer fails ([fault]) or when an INSERT violates a constraint, and the
    store is then the one before the transaction; the session is left
    without pending objects either way. *)
Definition session_commit (fault : option exn) : M (exn + unit) :=
  λ c,
    match fault with
    | Some e => (inl e, {| world := world c; pending := [] |})
    | None =>
        match flush (pending c) (db (world c)) with
        | inl e => (inl e, {| world := world c; pending := [] |})
        | inr d => (inr tt, {| world := put_db d (world c); pending := [] |})
        end
    end.

(** [User.query.filter_by(username=username).first()] *)
Definition query_user_by_username (username : string) : M (option User.t) :=
  d ← get_db;
  mret (head (filter (λ u, User.username u = username) (users d))).

(** [User.query.get(user_id)] *)
Definition query_user_get (user_id : Z) : M (option User.t) :=
  d ← get_db;
  mret (head (filter (λ u, User.id u = user_id) (users d))).

(** [Quiz.query.count()] *)
Definition query_quiz_count : M nat :=
  d ← get_db; mret (length (quizzes d)).

(** [Quiz.query.all()]: a scan of the table, in rowid order. *)
Definition query_quiz_all : M (list Quiz.t) :=
  d ← get_db; mret (quizzes d).

(** [MultiDict.get(key)]: the first value submitted under [key], [None]
    without one.  [form[key]] is the same lookup and raises
    [BadRequestKeyError] where [get] returns [None]. *)
Definition form_get (form : gmap string (list string)) (key : string) : option string :=
  form !! key ≫= head.

(** ** Scoring (lines 155-159) *)

(** [f"question_{question.id}"] *)
Definition field_name (question : Quiz.t) : string :=
  "question_" +:+ pretty (Quiz.id question).

(** The body of the [for] loop. *)
Definition score_step (form : gmap string (list string)) (score : nat)
    (question : Quiz.t) : nat :=
  let user_answer := form_get form (field_name question) in
  if bool_decide (user_answer = Some (Quiz.correct_answer question))
  then score + 1
  else score.

Definition score (questions : list Quiz.t) (form : gmap string (list string)) : nat :=
  foldl (score_step form) 0 questions.

(** The form a client submits for a mapping from question ids to labels. *)
Definition answers_form (answers : gmap Z string) : gmap string (list string) :=
  kmap (λ i : Z, "question_" +:+ pretty i) ((λ label, [label]) <$> answers).

(** ** The sample questions (lines 122-135) *)

Definition sample_questions : list Quiz.unsaved :=
  [ Quiz.new "What is the capital of France?" "Berlin" "Madrid" "Paris" "Rome" "C";
    Quiz.new "What is 2 + 2?" "3" "4" "5" "6" "B";
    Quiz.new "Which planet is known as the Red Planet?"
      "Earth" "Mars" "Jupiter" "Venus" "B" ].

(** ** Login state (flask-login) *)

(** [load_user] (lines 42-44) *)
Definition load_user (user_id : Z) : M (option User.t) :=
  query_user_get user_id.

Definition current_user : M (option User.t) :=
  λ c, match cookie (world c) with
       | Some user_id => load_user user_id c
       | None => (None, c)
       end.

Definition login_user (user : User.t) : M unit := set_cookie (Some (User.id user)).

Definition logout_user : M unit := set_cookie None.

(** [@login_required]: an anonymous client is sent to [login_view] with
    flask-login's message. *)
Definition login_required (view : M Response) : M Response :=
  user ← current_user;
  match user with
  | Some _ => view
  | None => flash "Please log in to access this page.";; mret (Redirect "login")
  end.

Section App.

(** Modelled from the spec: the one-way function of the absent
    [werkzeug.security], from a salt and a password to a digest. *)
Variable digest : string → string → string.

(** Modelled from the spec: a salted hash of the password. *)
Definition generate_password_hash (salt password : string) : PwHash :=
  {| ph_salt := salt; ph_digest := digest salt password |}.

(** Modelled from the spec: the digest of the candidate password under
    the stored salt is compared with the stored digest. *)
Definition check_password_hash (pwhash : PwHash) (password : string) : bool :=
  bool_decide (digest (ph_salt pwhash) password = ph_digest pwhash).

(** [User.set_password] (lines 35-36) *)
Definition set_password (self : User.unsaved) (salt password : string) : User.unsaved :=
  {| User.new_username := User.new_username self;
     User.new_password := Some (generate_password_hash salt password) |}.

(** [User.check_password] (lines 38-39) *)
Definition check_password (self : User.t) (password : string) : bool :=
  check_password_hash (User.password self) password.

(** ** The views *)

(** [register] (lines 48-72) *)
Definition register (request : Request) (env : Env) : M Response :=
  match method request with
  | POST =>
      match form_get (form request) "username", form_get (form request) "password" with
      | Some username, Some password =>
          existing_user ← query_user_by_username username;
          match existing_user with
          | Some _ =>
              flash "Username already exists. Try a different one.";;
              mret (Redirect "register")
          | None =>
              let new_user := User.new username None in
              let new_user := set_password new_user (salt env) password in
              session_add (PendingUser new_user);;
              committed ← session_commit (commit_fault env);
              match committed with
              | inr _ =>
                  flash "Registration successful! You can now log in.";;
                  mret (Redirect "login")
              | inl e =>
                  logging_error "Error during registration: " e;;
                  flash "An error occurred during registration. Please try again.";;
                  mret (Redirect "register")
              end
          end
      | _, _ => mret BadRequest
      end
  | GET => mret (RenderTemplate "register.html")
  end.

(** [login] (lines 76-90) *)
Definition login (request : Request) : M Response :=
  match method request with
  | POST =>
      match form_get (form request) "username", form_get (form request) "password" with
      | Some username, Some password =>
          user ← query_user_by_username username;
          match user with
          | Some user =>
              if check_password user password
              then login_user user;; mret (Redirect "home")
              else
                flash "Login failed. Check your username and password.";;
                mret (Redirect "login")
          | None =>
              flash "Login failed. Check your username and password.";;
              mret (Redirect "login")
          end
      | _, _ => mret BadRequest
      end
  | GET => mret (RenderTemplate "login.html")
  end.

(** [logout] (lines 93-97) *)
Definition logout : M Response :=
  login_required (logout_user;; mret (Redirect "home")).

(** [home] (lines 100-102) *)
Definition home : M Response := mret (RenderTemplate "home.html").

(** [add_sample_questions] (lines 118-144) *)
Definition add_sample_questions (env : Env) : M Response :=
  count ← query_quiz_count;
  if bool_decide (count = 0) then
    session_add_all (PendingQuiz <$> sample_questions);;
    committed ← session_commit (commit_fault env);
    match committed with
    | inr _ => mret (Text "Sample questions added!")
    | inl e =>
        logging_error "Error adding sample questions: " e;;
        mret (Text "An error occurred while adding sample questions.")
    end
  else mret (Text "Sample questions already exist in the database.").

(** [quiz] (lines 147-164) *)
Definition quiz (request : Request) : M Response :=
  login_required (
    questions ← query_quiz_all;
    match method request with
    | POST =>
        let score := score questions (form request) in
        flash ("Your score is " +:+ pretty score +:+ " out of "
               +:+ pretty (length questions));;
        mret (RenderQuiz questions (Some score))
    | GET => mret (RenderQuiz questions None)
    end).

(** The error handlers (lines 167-173) *)
Definition page_not_found : M Response := mret (ErrorPage "404.html" 404).
Definition internal_server_error : M Response := mret (ErrorPage "500.html" 500).

(** The routes (the [@app.route] decorators). *)
Definition dispatch (request : Request) (env : Env) : M Response :=
  if bool_decide (path request = "/register") then register request env
  else if bool_decide (path request = "/login") then login request
  else if bool_decide (path request = "/logout") then
    match method request with GET => logout | POST => mret MethodNotAllowed end
  else if bool_decide (path request = "/") then
    match method request with GET => home | POST => mret MethodNotAllowed end
  else if bool_decide (path request = "/add_sample_questions") then
    match method request with
    | GET => add_sample_questions env
    | POST => mret MethodNotAllowed
    end
  else if bool_decide (path request = "/quiz") then quiz request
  else page_not_found.

(** One request: the view runs with a session of its own, which is
    removed when the request ends. *)
Definition serve (view : M Response) (w : World) : Response * World :=
  let r := view {| world := w; pending := [] |} in (r.1, world r.2).

Definition app (request : Request) (env : Env) (w : World) : Response * World :=
  serve (dispatch request env) w.

(** The world after a sequence of requests. *)
Definition run (events : list (Request * Env)) (w : World) : World :=
  foldl (λ w ev, (app ev.1 ev.2 w).2) w events.

End App.

(** The world of a fresh deployment: empty tables, nobody logged in. *)
Definition init : World :=
  {| db := {| users := []; quizzes := [] |}; cookie := None; flashed := []; log := [] |}.

(** ** The outcomes of the spec, as the client observes them *)

(** [DuplicateUsername]: back to the registration form, with the message
    of line 56; nothing else changes. *)
Definition DuplicateUsername (w : World) : Response * World :=
  (Redirect "register", add_flash "Username already exists. Try a different one." w).

(** [InvalidCredentials]: back to the login form, with the message of
    line 87; nothing else changes. *)
Definition InvalidCredentials (w : World) : Response * World :=
  (Redirect "login", add_flash "Login failed. Check your username and password." w).

(** [StorageFailure] of a registration (lines 67-70): the exception is
    logged and a retryable message is flashed. *)
Definition RegistrationFailure (e : exn) (w : World) : Response * World :=
  (Redirect "register",
   add_flash "An error occurred during registration. Please try again."
     (add_log "Error during registration: " e w)).

(** [StorageFailure] of the seeding (lines 142-144). *)
Definition SeedingFailure (e : exn) (w : World) : Response * World :=
  (Text "An error occurred while adding sample questions.",
   add_log "Error adding sample questions: " e w).

(** The request is a POST whose form carries the username [u] and the
    password [p]: what both [register] and [login] read. *)
Definition submits (request : Request) (u p : string) : Prop :=
  method request = POST
  ∧ form_get (form request) "username" = Some u
  ∧ form_get (form request) "password" = Some p.

(** The form of a registration or login with one value per field. *)
Definition credentials_form (u p : string) : gmap string (list string) :=
  {[ "username" := [u]; "password" := [p] ]}.

Definition register_request (u p : string) : Request :=
  {| path := "/register"; method := POST; form := credentials_form u p |}.

Definition login_request (u p : string) : Request :=
  {| path := "/login"; method := POST; form := credentials_form u p |}.

(** A registration of [u] with [p] succeeded somewhere in [events], run
    from a fresh deployment. *)
Definition registered (digest : string → string → string)
    (events : list (Request * Env)) (u p : string) : Prop :=
  ∃ before ev after,
    events = before ++ ev :: after
    ∧ path ev.1 = "/register"
    ∧ submits ev.1 u p
    ∧ (app digest ev.1 ev.2 (run digest before init)).1 = Redirect "login".

(** The row a successful registration of [u] with [p] adds to [w]. *)
Definition new_row (digest : string → string → string)
    (u p : string) (env : Env) (w : World) : User.t :=
  User.mk (next_id (User.id <$> users (db w))) u
    (generate_password_hash digest (salt env) p).

(** The world a fresh deployment reaches through [events]. *)
Definition deployed (digest : string → string → string)
    (events : list (Request * Env)) : World :=
  run digest events init.

(** The users table holds the successful registrations: every row is a
    registration with the hash of its password, every registration has
    its row, which is the one a query by username finds, and no two rows
    share a username. *)
Definition store_inv (digest : string → string → string)
    (events : list (Request * Env)) (w : World) : Prop :=
  (∀ user, user ∈ users (db w) →
     ∃ salt p, registered digest events (User.username user) p
               ∧ User.password user = generate_password_hash digest salt p)
  ∧ (∀ u p, registered digest events u p →
       ∃ user salt,
         head (filter (λ x, User.username x = u) (users (db w))) = Some user
         ∧ User.password user = generate_password_hash digest salt p)
  ∧ NoDup (User.username <$> users (db w)).

(** The hash stored for the username [u]: the password column of the row
    that the query of [login] (line 82) finds. *)
Definition stored_hash (w : World) (u : string) : option PwHash :=
  User.password <$> head (filter (λ x, User.username x = u) (users (db w))).

(** A digest to run the model on: the salt, a separator and the password
    itself. *)
Definition plain_digest (salt password : string) : string :=
  salt +:+ "$" +:+ password.

(** The string of the one byte 0. *)
Definition NUL : string := String Ascii.zero EmptyString.

(** [key] filled with NUL bytes up to [n] bytes; a longer key is kept. *)
Fixpoint zero_pad (n : nat) (key : string) : string :=
  match n, key with
  | 0, _ => key
  | S n', EmptyString => String Ascii.zero (zero_pad n' EmptyString)
  | S n', String a rest => String a (zero_pad n' rest)
  end.

(** A digest that reads the password as the PBKDF2 and scrypt schemes of
    [werkzeug.security] do, as the key of an HMAC: a key shorter than the
    block of 64 bytes is filled with NUL bytes, so a password and that
    password followed by NUL have one digest.  (A longer key is hashed
    first; here it is kept.) *)
Definition padded_digest (salt password : string) : string :=
  salt +:+ "$" +:+ zero_pad 64 password.

(** The persisted sample questions, as the seeding leaves them in an empty
    catalog. *)
Definition seeded_catalog : list Quiz.t :=
  [ Quiz.mk 1 "What is the capital of France?" "Berlin" "Madrid" "Paris" "Rome" "C";
    Quiz.mk 2 "What is 2 + 2?" "3" "4" "5" "6" "B";
    Quiz.mk 3 "Which planet is known as the Red Planet?"
      "Earth" "Mars" "Jupiter" "Venus" "B" ].

(** The user flask-login finds for the client's cookie at the start of a
    request. *)
Definition logged_in_user (w : World) : option User.t :=
  (current_user {| world := w; pending := [] |}).1.

(** An environment without failure of the persistence layer. *)
Definition healthy (salt : string) : Env := {| salt := salt; commit_fault := None |}.

(** An environment whose commit raises [e]. *)
Definition failing (salt : string) (e : exn) : Env :=
  {| salt := salt; commit_fault := Some e |}.

(** The catalog is in ascending order of id. *)
Definition sorted_by_id (questions : list Quiz.t) : Prop :=
  StronglySorted Z.lt (Quiz.id <$> questions).

(** [Quiz.__repr__] (lines 114-115) *)
Definition quiz_repr (self : Quiz.t) : string :=
  "<Quiz " +:+ pretty (Quiz.id self) +:+ ">".

(** Whether a question is answered with its correct label on a form: the
    test of line 158. *)
Definition answered_correctly (form : gmap string (list string)) (q : Quiz.t) : Prop :=
  form_get form (field_name q) = Some (Quiz.correct_answer q).

Global Instance answered_correctly_dec form q : Decision (answered_correctly form q).
Proof. unfold answered_correctly. apply _. Defined.

(** The ways a request can change the world, with the response where it
    tells them apart. *)
Inductive step (digest : string → string → string)
    (request : Request) (env : Env) (w : World) : Response * World → Prop :=
  | step_silent (r : Response) :
      step digest request env w (r, w)
  | step_flash (r : Response) (message : string) :
      r ≠ Redirect "home" →
      ¬ (path request = "/register" ∧ r = Redirect "login") →
      step digest request env w (r, add_flash message w)
  | step_login (user : User.t) :
      path request = "/login" →
      user ∈ users (db w) →
      step digest request env w
        (Redirect "home", put_cookie (Some (User.id user)) w)
  | step_logout :
      path request = "/logout" →
      step digest request env w (Redirect "home", put_cookie None w)
  | step_registered (u p : string) :
      path request = "/register" →
      submits request u p →
      u ∉ User.username <$> users (db w) →
      commit_fault env = None →
      step digest request env w
        (Redirect "login",
         add_flash "Registration successful! You can now log in."
           (put_db {| users := users (db w) ++ [new_row digest u p env w];
                      quizzes := quizzes (db w) |} w))
  | step_register_failed (e : exn) :
      path request = "/register" →
      commit_fault env = Some e →
      step digest request env w (RegistrationFailure e w)
  | step_seeded :
      path request = "/add_sample_questions" →
      method request = GET →
      quizzes (db w) = [] →
      commit_fault env = None →
      step digest request env w
        (Text "Sample questions added!",
         put_db {| users := users (db w); quizzes := seeded_catalog |} w)
  | step_seed_failed (e : exn) :
      path request = "/add_sample_questions" →
      commit_fault env = Some e →
      step digest request env w (SeedingFailure e w).

(** What every world of a deployment satisfies: the users carry the ids
    1, 2, ... in the order of their registration, under distinct
    usernames; the cookie, when set, holds the id of a user; the catalog
    is empty or holds the sample questions. *)
Definition world_inv (w : World) : Prop :=
  User.id <$> users (db w) = seqZ 1 (Z.of_nat (length (users (db w))))
  ∧ NoDup (User.username <$> users (db w))
  ∧ (∀ i, cookie w = Some i → i ∈ User.id <$> users (db w))
  ∧ (quizzes (db w) = [] ∨ quizzes (db w) = seeded_catalog).

(** The faults the environment injects along a sequence of requests. *)
Definition injected_faults (events : list (Request * Env)) : list exn :=
  omap (λ ev : Request * Env, commit_fault ev.2) events.

(** A GET of [path], without form. *)
Definition get_request (path : string) : Request :=
  {| path := path; method := GET; form := ∅ |}.

(** * Properties *)

(** ** Scoring *)

Lemma field_name_key_inj : Inj (=) (=) (λ i : Z, "question_" +:+ pretty i).
Proof. intros i j H. apply (inj (String.app "question_")) in H. by apply (inj pretty). Qed.

Lemma form_get_answers_form (answers : gmap Z string) (q : Quiz.t) :
  form_get (answers_form answers) (field_name q) = answers !! Quiz.id q.
Proof.
  unfold form_get, answers_form, field_name.
  rewrite (lookup_kmap (λ i : Z, "question_" +:+ pretty i) (Inj0 := field_name_key_inj)).
  rewrite lookup_fmap. by destruct (answers !! Quiz.id q).
Qed.

(** The loop adds to its counter the number of questions answered with
    their correct label. *)
Lemma score_loop_count (form : gmap string (list string)) (questions : list Quiz.t) (n : nat) :
  foldl (score_step form) n questions
  = n + length (filter (λ q, form_get form (field_name q) = Some (Quiz.correct_answer q))
                  questions).
Proof.
  revert n. induction questions as [|q qs IH]; intros n; simpl.
  - lia.
  - rewrite IH. unfold score_step. rewrite filter_cons.
    case_bool_decide; case_decide; simpl; try done; lia.
Qed.

(** Two forms that hold the same answer for every question of the
    sequence score the same. *)
Lemma score_ext (questions : list Quiz.t) (form1 form2 : gmap string (list string)) :
  (∀ q, q ∈ questions → form_get form1 (field_name q) = form_get form2 (field_name q)) →
  score questions form1 = score questions form2.
Proof.
  unfold score. generalize 0.
  induction questions as [|q qs IH]; intros n Hagree; simpl; [done|].
  rewrite IH by (intros q' Hq'; apply Hagree; by right).
  unfold score_step. rewrite (Hagree q) by left. done.
Qed.

(** C1: [score] is the number of questions whose submitted label is
    exactly the question's [correct_answer], on every form and on the form
    of every answer mapping; a question without a submitted answer adds
    nothing (and [score] is total: nothing is raised); the result lies
    between 0 and the number of questions. *)
Theorem score_counts_exact_matches
    (questions : list Quiz.t) (form : gmap string (list string)) (answers : gmap Z string) :
  score questions form
  = length (filter (λ q, form_get form (field_name q) = Some (Quiz.correct_answer q))
              questions)
  ∧ score questions (answers_form answers)
    = length (filter (λ q, answers !! Quiz.id q = Some (Quiz.correct_answer q)) questions)
  ∧ (∀ q before after,
       score (before ++ q :: after) (delete (field_name q) form)
       = score (before ++ after) (delete (field_name q) form))
  ∧ 0 ≤ score questions form ≤ length questions.
Proof.
  assert (Hcount : ∀ f, score questions f
    = length (filter (λ q, form_get f (field_name q) = Some (Quiz.correct_answer q))
                questions)).
  { intros f. unfold score. by rewrite score_loop_count. }
  split_and!.
  - apply Hcount.
  - rewrite Hcount. f_equal. apply list_filter_iff. intros q.
    by rewrite form_get_answers_form.
  - intros q before after. unfold score.
    rewrite !foldl_app. simpl. f_equal.
    unfold score_step, form_get. by rewrite lookup_delete_eq.
  - lia.
  - rewrite Hcount. apply length_filter.
Qed.

(** The comparison of line 158 is case-sensitive. *)
Example score_is_case_sensitive :
  score seeded_catalog (answers_form {[ 1%Z := "c"; 2%Z := "b"; 3%Z := "B" ]}) = 1.
Proof. by vm_compute. Qed.

(** C10: entries of the submitted mapping under keys that belong to no
    question of the sequence do not change the score, on the form and on
    the answer mapping. *)
Theorem score_ignores_foreign_keys
    (questions : list Quiz.t) (form : gmap string (list string)) (answers : gmap Z string) :
  score questions form
  = score questions (filter (λ kv, kv.1 ∈ field_name <$> questions) form)
  ∧ score questions (answers_form answers)
    = score questions
        (answers_form (filter (λ kv, kv.1 ∈ Quiz.id <$> questions) answers)).
Proof.
  split; apply score_ext; intros q Hq.
  - unfold form_get. rewrite map_lookup_filter.
    destruct (form !! field_name q) as [vs|]; simpl; [|done].
    rewrite option_guard_True; [done|]. simpl. by apply list_elem_of_fmap_2.
  - rewrite !form_get_answers_form, map_lookup_filter.
    destruct (answers !! Quiz.id q) as [v|]; simpl; [|done].
    rewrite option_guard_True; [done|]. simpl. by apply list_elem_of_fmap_2.
Qed.

(** ** The credential store *)

Lemma head_filter_None {A} (P : A → Prop) `{!∀ x, Decision (P x)} (l : list A) :
  head (filter P l) = None ↔ ∀ x, x ∈ l → ¬ P x.
Proof.
  induction l as [|a l IH]; simpl.
  - split; [|done]. intros _ x Hx. by apply not_elem_of_nil in Hx.
  - rewrite filter_cons. case_decide; simpl.
    + split; [done|]. intros Hl. exfalso. apply (Hl a); [left|done].
    + rewrite IH. split.
      * intros Hl x [->|Hx]%elem_of_cons; auto.
      * intros Hl x Hx. apply Hl. by right.
Qed.

Lemma head_filter_Some {A} (P : A → Prop) `{!∀ x, Decision (P x)} (l : list A) (a : A) :
  head (filter P l) = Some a → a ∈ l ∧ P a.
Proof.
  intros Hhead. assert (a ∈ filter P l) as Ha.
  { destruct (filter P l); simplify_eq/=. left. }
  by apply list_elem_of_filter in Ha as [? ?].
Qed.

Lemma no_user_named (u : string) (l : list User.t) :
  head (filter (λ x, User.username x = u) l) = None ↔ u ∉ User.username <$> l.
Proof.
  rewrite head_filter_None, list_elem_of_fmap. split.
  - intros Hno (x & -> & Hx). by apply (Hno x).
  - intros Hno x Hx Hu. apply Hno. by exists x.
Qed.

(** Every id of a table is below the id given to the next row. *)
Lemma next_id_above (ids : list Z) (i : Z) : i ∈ ids → (i < next_id ids)%Z.
Proof.
  destruct ids as [|j rest]; [by intros ?%not_elem_of_nil|].
  simpl. revert i j. induction rest as [|k rest IH]; intros i j Hi; simpl.
  - apply list_elem_of_singleton in Hi as ->. lia.
  - apply elem_of_cons in Hi as [->|Hi].
    + specialize (IH j j ltac:(left)). lia.
    + apply elem_of_cons in Hi as [->|Hi].
      * lia.
      * specialize (IH i j ltac:(by right)). lia.
Qed.

Section Views.

Variable digest : string → string → string.

(** What a POST of [register] does, case by case. *)
Lemma serve_register (request : Request) (env : Env) (w : World) (u p : string) :
  submits request u p →
  serve (register digest request env) w =
    match head (filter (λ x, User.username x = u) (users (db w))) with
    | Some _ => DuplicateUsername w
    | None =>
        match commit_fault env with
        | Some e => RegistrationFailure e w
        | None =>
            (Redirect "login",
             add_flash "Registration successful! You can now log in."
               (put_db {| users := users (db w) ++ [new_row digest u p env w];
                          quizzes := quizzes (db w) |} w))
        end
    end.
Proof.
  intros (Hm & Hu & Hp). unfold serve, register. rewrite Hm, Hu, Hp.
  unfold mbind, M_bind, query_user_by_username, get_db, mret, M_ret. simpl.
  destruct (head (filter _ (users (db w)))) as [existing|] eqn:Hhead; [done|].
  destruct (commit_fault env) as [e|] eqn:Hfault.
  - done.
  - unfold session_add, session_commit. simpl. unfold insert_user. simpl.
    apply no_user_named in Hhead. rewrite bool_decide_eq_false_2 by done.
    done.
Qed.

(** What a POST of [login] does, case by case. *)
Lemma serve_login (request : Request) (w : World) (u p : string) :
  submits request u p →
  serve (login digest request) w =
    match head (filter (λ x, User.username x = u) (users (db w))) with
    | Some user =>
        if check_password digest user p
        then (Redirect "home", put_cookie (Some (User.id user)) w)
        else InvalidCredentials w
    | None => InvalidCredentials w
    end.
Proof.
  intros (Hm & Hu & Hp). unfold serve, login. rewrite Hm, Hu, Hp.
  unfold mbind, M_bind, query_user_by_username, get_db, mret, M_ret. simpl.
  destruct (head (filter _ (users (db w)))) as [user|]; [|done].
  by destruct (check_password digest user p).
Qed.

(** What [add_sample_questions] does, case by case. *)
Lemma serve_add_sample_questions (env : Env) (w : World) :
  serve (add_sample_questions env) w =
    match quizzes (db w), commit_fault env with
    | [], None =>
        (Text "Sample questions added!",
         put_db {| users := users (db w); quizzes := seeded_catalog |} w)
    | [], Some e => SeedingFailure e w
    | _ :: _, _ => (Text "Sample questions already exist in the database.", w)
    end.
Proof.
  unfold serve, add_sample_questions.
  unfold mbind, M_bind, query_quiz_count, get_db, mret, M_ret. simpl.
  destruct w as [[us qs] ck fl lg]. simpl.
  destruct qs as [|q qs]; simpl; [|done].
  by destruct (commit_fault env).
Qed.

(** What [quiz] does, case by case. *)
Lemma serve_quiz (request : Request) (w : World) :
  serve (quiz request) w =
    match logged_in_user w, method request with
    | None, _ => (Redirect "login", add_flash "Please log in to access this page." w)
    | Some _, GET => (RenderQuiz (quizzes (db w)) None, w)
    | Some _, POST =>
        let score := score (quizzes (db w)) (form request) in
        (RenderQuiz (quizzes (db w)) (Some score),
         add_flash ("Your score is " +:+ pretty score +:+ " out of "
                    +:+ pretty (length (quizzes (db w)))) w)
    end.
Proof.
  unfold serve, quiz, login_required, logged_in_user.
  unfold mbind, M_bind, mret, M_ret.
  assert (Hctx : (current_user {| world := w; pending := [] |}).2
                 = {| world := w; pending := [] |}).
  { unfold current_user, load_user, query_user_get, get_db, mbind, M_bind, mret, M_ret.
    simpl. by destruct (cookie w). }
  rewrite Hctx.
  destruct (current_user {| world := w; pending := [] |}).1 as [user|]; [|done].
  by destruct (method request).
Qed.

(** C3: a password verifies against its own hash under every
    salt, and another password does exactly when it has the digest of the
    first under that salt; [set_password] stores the hash of the password,
    and the row the store keeps for it answers [check_password] so. *)
Theorem check_password_accepts_same_digest
    (salt p q : string) (self : User.unsaved) (d : Db) :
  check_password_hash digest (generate_password_hash digest salt p) p = true
  ∧ (check_password_hash digest (generate_password_hash digest salt p) q = true
     ↔ digest salt q = digest salt p)
  ∧ (check_password_hash digest (generate_password_hash digest salt p) q = false
     ↔ digest salt q ≠ digest salt p)
  ∧ set_password digest self salt p
    = User.new (User.new_username self) (Some (generate_password_hash digest salt p))
  ∧ (User.new_username self ∉ User.username <$> users d →
       ∃ row,
         insert_user (set_password digest self salt p) d
         = inr {| users := users d ++ [row]; quizzes := quizzes d |}
         ∧ User.username row = User.new_username self
         ∧ check_password digest row p = true
         ∧ (check_password digest row q = true ↔ digest salt q = digest salt p)).
Proof.
  assert (Hcheck : ∀ q', check_password_hash digest
                           (generate_password_hash digest salt p) q' = true
                         ↔ digest salt q' = digest salt p).
  { intros q'. unfold check_password_hash, generate_password_hash. simpl.
    apply bool_decide_eq_true. }
  split_and!.
  - by apply Hcheck.
  - apply Hcheck.
  - rewrite <- Hcheck. by destruct (check_password_hash _ _ _).
  - done.
  - intros Hnew.
    exists (User.mk (next_id (User.id <$> users d)) (User.new_username self)
              (generate_password_hash digest salt p)).
    split_and!.
    + unfold insert_user, set_password. simpl.
      by rewrite bool_decide_eq_false_2.
    + done.
    + unfold check_password. simpl. by apply Hcheck.
    + unfold check_password. simpl. apply Hcheck.
Qed.

(** C4: registering a username that is in the credential store fails with
    [DuplicateUsername] whatever the password, and the store is the one
    before; so a registration that follows a successful registration of
    the same username fails. *)
Theorem register_duplicate_username
    (request : Request) (env : Env) (w : World) (u p : string) :
  submits request u p →
  (u ∈ User.username <$> users (db w) →
     serve (register digest request env) w = DuplicateUsername w
     ∧ db (serve (register digest request env) w).2 = db w)
  ∧ (∀ request0 env0 w0 p0,
       submits request0 u p0 →
       serve (register digest request0 env0) w0 = (Redirect "login", w) →
       serve (register digest request env) w = DuplicateUsername w).
Proof.
  intros Hsub.
  assert (Hdup : u ∈ User.username <$> users (db w) →
    serve (register digest request env) w = DuplicateUsername w).
  { intros Hin. rewrite (serve_register request env w u p Hsub).
    destruct (head (filter _ (users (db w)))) as [existing|] eqn:Hhead; [done|].
    by apply no_user_named in Hhead. }
  split.
  - intros Hin. split; [by apply Hdup|]. by rewrite Hdup.
  - intros request0 env0 w0 p0 Hsub0 Hok. apply Hdup.
    rewrite (serve_register request0 env0 w0 u p0 Hsub0) in Hok.
    destruct (head (filter _ (users (db w0)))) as [existing|]; [done|].
    destruct (commit_fault env0) as [e|]; [done|].
    injection Hok as <-. simpl. rewrite fmap_app. set_solver.
Qed.

(** C9: a successful registration appends exactly one row to the users
    table, the username with the hash of the password under a fresh id,
    and every row that was there stays as it was; the catalog is not
    touched. *)
Theorem register_adds_one_row
    (request : Request) (env : Env) (w : World) (u p : string) :
  submits request u p →
  (serve (register digest request env) w).1 = Redirect "login" →
  users (db (serve (register digest request env) w).2)
    = users (db w) ++ [User.mk (next_id (User.id <$> users (db w))) u
                         (generate_password_hash digest (salt env) p)]
  ∧ length (users (db (serve (register digest request env) w).2))
    = S (length (users (db w)))
  ∧ (∀ i row, users (db w) !! i = Some row →
       users (db (serve (register digest request env) w).2) !! i = Some row)
  ∧ (next_id (User.id <$> users (db w)) ∉ User.id <$> users (db w))
  ∧ (u ∉ User.username <$> users (db w))
  ∧ quizzes (db (serve (register digest request env) w).2) = quizzes (db w).
Proof.
  intros Hsub. rewrite (serve_register request env w u p Hsub).
  destruct (head (filter _ (users (db w)))) as [existing|] eqn:Hhead; [done|].
  destruct (commit_fault env) as [e|]; [done|]. intros _. simpl.
  split_and!.
  - done.
  - rewrite length_app. simpl. lia.
  - intros i row Hrow. by apply lookup_app_l_Some.
  - intros Hin%next_id_above. lia.
  - by apply no_user_named.
  - done.
Qed.

(** ** What a request does to the store *)

(** [register] either leaves the store as it is and does not report a
    success, or it is the successful registration of a new username. *)
Lemma register_effect (request : Request) (env : Env) (w : World) :
  (db (serve (register digest request env) w).2 = db w
   ∧ (serve (register digest request env) w).1 ≠ Redirect "login")
  ∨ (∃ u p,
       submits request u p
       ∧ (u ∉ User.username <$> users (db w))
       ∧ serve (register digest request env) w
         = (Redirect "login",
            add_flash "Registration successful! You can now log in."
              (put_db {| users := users (db w) ++ [new_row digest u p env w];
                         quizzes := quizzes (db w) |} w))).
Proof.
  destruct (method request) eqn:Hm.
  { left. unfold serve, register. rewrite Hm. by split. }
  destruct (form_get (form request) "username") as [u|] eqn:Hu; cycle 1.
  { left. unfold serve, register. rewrite Hm, Hu. by split. }
  destruct (form_get (form request) "password") as [p|] eqn:Hp; cycle 1.
  { left. unfold serve, register. rewrite Hm, Hu, Hp. by split. }
  assert (Hsub : submits request u p) by done.
  rewrite (serve_register request env w u p Hsub).
  destruct (head (filter _ (users (db w)))) as [existing|] eqn:Hhead.
  { left. by split. }
  destruct (commit_fault env) as [e|].
  { left. by split. }
  right. exists u, p. split_and!; [done| |done]. by apply no_user_named.
Qed.

Lemma login_effect (request : Request) (w : World) :
  db (serve (login digest request) w).2 = db w.
Proof.
  destruct (method request) eqn:Hm.
  { unfold serve, login. by rewrite Hm. }
  destruct (form_get (form request) "username") as [u|] eqn:Hu; cycle 1.
  { unfold serve, login. by rewrite Hm, Hu. }
  destruct (form_get (form request) "password") as [p|] eqn:Hp; cycle 1.
  { unfold serve, login. by rewrite Hm, Hu, Hp. }
  assert (Hsub : submits request u p) by done.
  rewrite (serve_login request w u p Hsub).
  destruct (head (filter _ (users (db w)))) as [user|]; [|done].
  by destruct (check_password digest user p).
Qed.

Lemma logout_effect (w : World) : db (serve logout w).2 = db w.
Proof.
  unfold serve, logout, login_required, current_user, load_user, query_user_get.
  unfold mbind, M_bind, get_db, mret, M_ret. simpl.
  destruct (cookie w) as [i|]; simpl; [|done].
  by destruct (head (filter _ (users (db w)))).
Qed.

Lemma quiz_effect (request : Request) (w : World) :
  db (serve (quiz request) w).2 = db w.
Proof.
  rewrite serve_quiz.
  destruct (logged_in_user w); [|done]. by destruct (method request).
Qed.

(** A request leaves the store as it is, or it is a successful
    registration, which appends one user, or a seeding of the empty
    catalog. *)
Lemma app_effect (request : Request) (env : Env) (w : World) :
  (db (app digest request env w).2 = db w
   ∧ ¬ (path request = "/register" ∧ (app digest request env w).1 = Redirect "login"))
  ∨ (∃ u p,
       path request = "/register"
       ∧ submits request u p
       ∧ (app digest request env w).1 = Redirect "login"
       ∧ (u ∉ User.username <$> users (db w))
       ∧ db (app digest request env w).2
         = {| users := users (db w) ++ [new_row digest u p env w];
              quizzes := quizzes (db w) |})
  ∨ (quizzes (db w) = []
     ∧ path request ≠ "/register"
     ∧ db (app digest request env w).2
       = {| users := users (db w); quizzes := seeded_catalog |}).
Proof.
  unfold app, dispatch.
  case_bool_decide as Hregister.
  { destruct (register_effect request env w) as [[Hdb Hresp]|(u & p & Hsub & Hnew & Hok)].
    - left. split; [done|]. by intros [_ ?].
    - right; left. exists u, p. rewrite Hok. by split_and!. }
  case_bool_decide as Hlogin.
  { left. split; [apply login_effect|]. by intros [? _]. }
  case_bool_decide as Hlogout.
  { left. split; [|by intros [? _]].
    destruct (method request); [apply logout_effect|done]. }
  case_bool_decide as Hhome.
  { left. split; [|by intros [? _]]. by destruct (method request). }
  case_bool_decide as Hseed.
  { destruct (method request); cycle 1.
    { left. split; [done|]. by intros [? _]. }
    rewrite serve_add_sample_questions.
    destruct (quizzes (db w)) as [|q qs] eqn:Hq.
    - destruct (commit_fault env) as [e|].
      + left. split; [done|]. by intros [? _].
      + right; right. by split_and!.
    - left. split; [done|]. by intros [? _]. }
  case_bool_decide as Hquiz.
  { left. split; [apply quiz_effect|]. by intros [? _]. }
  left. split; [done|]. by intros [? _].
Qed.

(** ** Sequences of requests *)

Lemma run_snoc (events : list (Request * Env)) (ev : Request * Env) (w : World) :
  run digest (events ++ [ev]) w = (app digest ev.1 ev.2 (run digest events w)).2.
Proof. unfold run. by rewrite foldl_app. Qed.

Lemma registered_nil (u p : string) : ¬ registered digest [] u p.
Proof. intros (before & ev & after & Heq & _). by destruct before. Qed.

(** The registrations of a sequence are those of its prefix and, when the
    last request is a successful registration, that one. *)
Lemma registered_snoc (events : list (Request * Env)) (ev : Request * Env) (u p : string) :
  registered digest (events ++ [ev]) u p
  ↔ registered digest events u p
    ∨ (path ev.1 = "/register"
       ∧ submits ev.1 u p
       ∧ (app digest ev.1 ev.2 (run digest events init)).1 = Redirect "login").
Proof.
  split.
  - intros (before & e & after & Heq & Hpath & Hsub & Hok).
    destruct after as [|a after _] using rev_ind.
    + apply app_inj_tail in Heq as [-> ->]. by right.
    + left. rewrite app_comm_cons, app_assoc in Heq.
      apply app_inj_tail in Heq as [-> ->]. by exists before, e, after.
  - intros [(before & e & after & -> & Hrest)|Hlast].
    + exists before, e, (after ++ [ev]). by rewrite <- app_assoc.
    + by exists events, ev, [].
Qed.

(** What a request does to the users table. *)
Lemma app_users_effect (request : Request) (env : Env) (w : World) :
  (users (db (app digest request env w).2) = users (db w)
   ∧ ¬ (path request = "/register" ∧ (app digest request env w).1 = Redirect "login"))
  ∨ (∃ u p,
       path request = "/register"
       ∧ submits request u p
       ∧ (app digest request env w).1 = Redirect "login"
       ∧ (u ∉ User.username <$> users (db w))
       ∧ users (db (app digest request env w).2)
         = users (db w) ++ [new_row digest u p env w]).
Proof.
  destruct (app_effect request env w)
    as [[Hdb Hnot]|[(u & p & Hpath & Hsub & Hok & Hnew & Hdb)|(Hq & Hpath & Hdb)]].
  - left. by rewrite Hdb.
  - right. exists u, p. by rewrite Hdb.
  - left. rewrite Hdb. split; [done|]. by intros [? _].
Qed.

Lemma head_filter_username_app (u : string) (l : list User.t) (row : User.t) :
  head (filter (λ x, User.username x = u) (l ++ [row]))
  = match head (filter (λ x, User.username x = u) l) with
    | Some user => Some user
    | None => if decide (User.username row = u) then Some row else None
    end.
Proof.
  rewrite filter_app. destruct (filter _ l) as [|a l'] eqn:Hl; simpl; [|done].
  rewrite filter_cons, filter_nil. by case_decide.
Qed.

(** The users table of a deployment holds its successful registrations. *)
Lemma store_inv_deployed (events : list (Request * Env)) :
  store_inv digest events (deployed digest events).
Proof.
  unfold deployed.
  induction events as [|ev events (IH1 & IH2 & IH3)] using rev_ind.
  { split_and!; simpl.
    - by intros user ?%not_elem_of_nil.
    - by intros u p ?%registered_nil.
    - constructor. }
  rewrite run_snoc. unfold store_inv.
  destruct (app_users_effect ev.1 ev.2 (run digest events init))
    as [[Husers Hnot]|(u0 & p0 & Hpath & Hsub & Hok & Hnew & Husers)];
    rewrite Husers.
  - split_and!; [| |done].
    + intros user (s0 & p & Hreg & Hpw)%IH1. exists s0, p.
      split; [|done]. apply registered_snoc. by left.
    + intros u p [Hreg|(Hpath & _ & Hok)]%registered_snoc; [by apply IH2|].
      by destruct Hnot.
  - split_and!.
    + intros user [Hin| ->%list_elem_of_singleton]%elem_of_app.
      * apply IH1 in Hin as (s0 & p & Hreg & Hpw). exists s0, p.
        split; [|done]. apply registered_snoc. by left.
      * exists (salt ev.2), p0. split; [|done]. apply registered_snoc. by right.
    + intros u p [Hreg|(_ & Hsub' & _)]%registered_snoc.
      * apply IH2 in Hreg as (user & s0 & Hhead & Hpw). exists user, s0.
        split; [|done]. by rewrite head_filter_username_app, Hhead.
      * destruct Hsub as (_ & Hu0 & Hp0), Hsub' as (_ & Hu & Hp).
        assert (u = u0) as -> by congruence. assert (p = p0) as -> by congruence.
        exists (new_row digest u0 p0 ev.2 (run digest events init)), (salt ev.2).
        split; [|done]. apply no_user_named in Hnew.
        rewrite head_filter_username_app, Hnew. simpl. by rewrite decide_True.
    + rewrite fmap_app. apply NoDup_app. split_and!; [done| |].
      * intros x Hx ->%list_elem_of_singleton. done.
      * apply NoDup_singleton.
Qed.

(** With unique usernames, the query by username finds the row of that
    username. *)
Lemma query_finds_row (l : list User.t) (user : User.t) :
  NoDup (User.username <$> l) → user ∈ l →
  head (filter (λ x, User.username x = User.username user) l) = Some user.
Proof.
  induction l as [|a l IH]; [by intros _ ?%not_elem_of_nil|].
  rewrite fmap_cons, NoDup_cons. intros [Hfresh Hnodup] Hin.
  rewrite filter_cons. apply elem_of_cons in Hin as [->|Hin].
  - by rewrite decide_True.
  - rewrite decide_False; [by apply IH|].
    intros Heq. apply Hfresh. rewrite Heq. by apply list_elem_of_fmap_2.
Qed.

(** C2: in a deployment, a login with [u] and [p] succeeds
    exactly when a registration of [u] succeeded before with a password
    that has the digest of [p] under the salt stored for [u] (no request
    changes a stored password); so it succeeds whenever a registration of
    [u] with [p] succeeded.  It fails with [InvalidCredentials] when no
    user is named [u] and when the stored hash of [u] does not verify
    against [p], and every failure is that one. *)
Theorem login_iff_registered_same_digest
    (events : list (Request * Env)) (request : Request) (u p : string) :
  submits request u p →
  ((serve (login digest request) (deployed digest events)).1 = Redirect "home"
   ↔ ∃ salt p',
       stored_hash (deployed digest events) u
       = Some (generate_password_hash digest salt p')
       ∧ registered digest events u p'
       ∧ digest salt p = digest salt p')
  ∧ (registered digest events u p →
       (serve (login digest request) (deployed digest events)).1 = Redirect "home")
  ∧ (u ∉ User.username <$> users (db (deployed digest events)) →
       serve (login digest request) (deployed digest events)
       = InvalidCredentials (deployed digest events))
  ∧ (∀ user,
       user ∈ users (db (deployed digest events)) →
       User.username user = u →
       check_password digest user p = false →
       serve (login digest request) (deployed digest events)
       = InvalidCredentials (deployed digest events))
  ∧ ((serve (login digest request) (deployed digest events)).1 ≠ Redirect "home" →
       serve (login digest request) (deployed digest events)
       = InvalidCredentials (deployed digest events)).
Proof.
  intros Hsub.
  destruct (store_inv_deployed events) as (Hrows & Hregs & Hnodup).
  rewrite (serve_login request (deployed digest events) u p Hsub).
  unfold stored_hash. split_and!.
  - split.
    + destruct (head (filter _ _)) as [user|] eqn:Hhead; [|done].
      destruct (check_password digest user p) eqn:Hcheck; [|done]. intros _.
      apply head_filter_Some in Hhead as [Hin Hname].
      destruct (Hrows user Hin) as (s0 & p' & Hreg & Hpw).
      unfold check_password, check_password_hash in Hcheck.
      rewrite Hpw in Hcheck. simpl in Hcheck.
      apply bool_decide_eq_true_1 in Hcheck.
      exists s0, p'. rewrite Hname in Hreg. simpl. by rewrite Hpw.
    + intros (s0 & p' & Hstored & _ & Hsame).
      destruct (head (filter _ _)) as [user|]; [|done].
      simpl in Hstored. injection Hstored as Hpw.
      unfold check_password, check_password_hash. rewrite Hpw. simpl.
      by rewrite bool_decide_eq_true_2.
  - intros (user & s0 & Hhead & Hpw)%Hregs. rewrite Hhead.
    unfold check_password, check_password_hash. rewrite Hpw. simpl.
    by rewrite bool_decide_eq_true_2.
  - intros Hnone%no_user_named. by rewrite Hnone.
  - intros user Hin <- Hcheck.
    by rewrite (query_finds_row _ user Hnodup Hin), Hcheck.
  - destruct (head (filter _ _)) as [user|]; [|done].
    by destruct (check_password digest user p).
Qed.

(** C7: when the commit of a registration or of the seeding raises, the
    exception is caught and logged, the client gets the retryable message,
    and the store is the one before the request; more generally, a
    registration or seeding that does not report success leaves the store
    as it was. *)
Theorem storage_failure_is_atomic
    (request : Request) (env : Env) (w : World) (u p : string) (e : exn) :
  commit_fault env = Some e →
  (submits request u p → u ∉ User.username <$> users (db w) →
     serve (register digest request env) w = RegistrationFailure e w)
  ∧ (quizzes (db w) = [] →
       serve (add_sample_questions env) w = SeedingFailure e w)
  ∧ db (RegistrationFailure e w).2 = db w
  ∧ db (SeedingFailure e w).2 = db w
  ∧ (∀ request' env',
       (serve (register digest request' env') w).1 ≠ Redirect "login" →
       db (serve (register digest request' env') w).2 = db w)
  ∧ (∀ env',
       (serve (add_sample_questions env') w).1 ≠ Text "Sample questions added!" →
       db (serve (add_sample_questions env') w).2 = db w).
Proof.
  intros Hfault. split_and!.
  - intros Hsub Hnew%no_user_named.
    by rewrite (serve_register request env w u p Hsub), Hnew, Hfault.
  - intros Hempty. by rewrite serve_add_sample_questions, Hempty, Hfault.
  - done.
  - done.
  - intros request' env' Hresp.
    destruct (register_effect request' env' w) as [[Hdb _]|(u' & p' & _ & _ & Hok)];
      [done|]. by rewrite Hok in Hresp.
  - intros env'. rewrite serve_add_sample_questions.
    destruct (quizzes (db w)); [|done]. by destruct (commit_fault env').
Qed.

(** ** The catalog *)

(** An INSERT keeps the table in ascending order of id: the new row gets
    an id above all others and goes last. *)
Lemma insert_quiz_sorted (q : Quiz.unsaved) (d d' : Db) :
  sorted_by_id (quizzes d) → insert_quiz q d = inr d' → sorted_by_id (quizzes d').
Proof.
  unfold sorted_by_id, insert_quiz. intros Hsorted [= <-]. simpl.
  rewrite fmap_app. apply StronglySorted_app_2; [|done|].
  - intros i j Hi ->%list_elem_of_singleton. by apply next_id_above.
  - repeat constructor.
Qed.

Lemma seeded_catalog_sorted : sorted_by_id seeded_catalog.
Proof. unfold sorted_by_id. simpl. repeat constructor; lia. Qed.

(** No request breaks the order of the catalog. *)
Lemma catalog_sorted_step (request : Request) (env : Env) (w : World) :
  sorted_by_id (quizzes (db w)) →
  sorted_by_id (quizzes (db (app digest request env w).2)).
Proof.
  intros Hsorted.
  destruct (app_effect request env w)
    as [[Hdb _]|[(u & p & _ & _ & _ & _ & Hdb)|(_ & _ & Hdb)]]; rewrite Hdb; simpl.
  - done.
  - done.
  - apply seeded_catalog_sorted.
Qed.

(** C6: in a deployment, the query of the quiz view returns the whole
    catalog, in ascending order of id, and the view renders and scores
    that one sequence. *)
Theorem list_all_sorted_and_shared (events : list (Request * Env)) (request : Request) :
  (query_quiz_all {| world := deployed digest events; pending := [] |}).1
  = quizzes (db (deployed digest events))
  ∧ sorted_by_id (quizzes (db (deployed digest events)))
  ∧ (serve (quiz request) (deployed digest events)).1
    = match logged_in_user (deployed digest events), method request with
      | None, _ => Redirect "login"
      | Some _, GET => RenderQuiz (quizzes (db (deployed digest events))) None
      | Some _, POST =>
          RenderQuiz (quizzes (db (deployed digest events)))
            (Some (score (quizzes (db (deployed digest events))) (form request)))
      end.
Proof.
  split_and!.
  - done.
  - unfold deployed. induction events as [|ev events IH] using rev_ind.
    + constructor.
    + rewrite run_snoc. by apply catalog_sorted_step.
  - rewrite serve_quiz. destruct (logged_in_user _); [|done].
    by destruct (method request).
Qed.

End Views.

(** C5: the seeding inserts the sample questions when the catalog has no
    row, unless the commit raises, and changes nothing when it has one; so
    a second seeding after a first one from an empty catalog changes
    nothing, and the catalog holds exactly 3 questions. *)
Theorem seed_if_empty_twice (env env' : Env) (w : World) :
  (quizzes (db w) ≠ [] →
     serve (add_sample_questions env) w
     = (Text "Sample questions already exist in the database.", w))
  ∧ (quizzes (db w) = [] → commit_fault env = None →
       serve (add_sample_questions env) w
       = (Text "Sample questions added!",
          put_db {| users := users (db w); quizzes := seeded_catalog |} w)
       ∧ serve (add_sample_questions env') (serve (add_sample_questions env) w).2
         = (Text "Sample questions already exist in the database.",
            (serve (add_sample_questions env) w).2)
       ∧ length (quizzes (db (serve (add_sample_questions env')
                                (serve (add_sample_questions env) w).2).2)) = 3).
Proof.
  split.
  - intros Hrows. rewrite serve_add_sample_questions.
    by destruct (quizzes (db w)).
  - intros Hempty Hfault.
    assert (Hfirst : serve (add_sample_questions env) w
      = (Text "Sample questions added!",
         put_db {| users := users (db w); quizzes := seeded_catalog |} w)).
    { by rewrite serve_add_sample_questions, Hempty, Hfault. }
    rewrite Hfirst. split_and!; [done| |]; by rewrite serve_add_sample_questions.
Qed.

(** C8: the seeding of a fresh deployment leaves the three sample
    questions, with the correct answers C, B and B under the ids 1, 2 and
    3; the answers 1:C, 2:B, 3:B score 3 on them and the answers 1:A, 2:A,
    3:A score 0. *)
Theorem sample_quiz_scores (salt : string) :
  quizzes (db (serve (add_sample_questions (healthy salt)) init).2) = seeded_catalog
  ∧ (λ q, (Quiz.id q, Quiz.option_c q, Quiz.option_b q, Quiz.correct_answer q))
      <$> seeded_catalog
    = [ (1%Z, "Paris", "Madrid", "C"); (2%Z, "5", "4", "B"); (3%Z, "Jupiter", "Mars", "B") ]
  ∧ score seeded_catalog (answers_form {[ 1%Z := "C"; 2%Z := "B"; 3%Z := "B" ]}) = 3
  ∧ score seeded_catalog (answers_form {[ 1%Z := "A"; 2%Z := "A"; 3%Z := "A" ]}) = 0.
Proof.
  split_and!.
  - by rewrite serve_add_sample_questions.
  - done.
  - by vm_compute.
  - by vm_compute.
Qed.

(** ** The theorems on a concrete deployment *)

(** After alice registered with the password secret, a login with that
    password succeeds, the registration being in the history. *)
Lemma login_iff_registered_same_digest_witness :
  submits (login_request "alice" "secret") "alice" "secret"
  ∧ ((serve (login plain_digest (login_request "alice" "secret"))
        (deployed plain_digest [(register_request "alice" "secret", healthy "s1")])).1
     = Redirect "home"
     ↔ ∃ salt p',
         stored_hash
           (deployed plain_digest [(register_request "alice" "secret", healthy "s1")])
           "alice"
         = Some (generate_password_hash plain_digest salt p')
         ∧ registered plain_digest
             [(register_request "alice" "secret", healthy "s1")] "alice" p'
         ∧ plain_digest salt "secret" = plain_digest salt p').
Proof.
  split; [by vm_compute|].
  apply (login_iff_registered_same_digest plain_digest
           [(register_request "alice" "secret", healthy "s1")]
           (login_request "alice" "secret") "alice" "secret").
  by vm_compute.
Defined.

(** With a digest that pads the password as an HMAC key, the password
    secret followed by NUL opens the account that alice registered with
    secret, and no registration with that password is in the history. *)
Lemma login_iff_registered_counterexample :
  (serve (login padded_digest (login_request "alice" ("secret" +:+ NUL)))
     (deployed padded_digest [(register_request "alice" "secret", healthy "s1")])).1
  = Redirect "home"
  ∧ ¬ registered padded_digest [(register_request "alice" "secret", healthy "s1")]
        "alice" ("secret" +:+ NUL).
Proof.
  split; [by vm_compute|].
  intros (before & ev & after & Heq & _ & (_ & _ & Hp) & _).
  destruct before as [|b before]; simplify_eq/=.
  by destruct before.
Qed.

(** The password secret verifies against its hash and Secret does not. *)
Lemma check_password_accepts_same_digest_witness :
  check_password_hash plain_digest
    (generate_password_hash plain_digest "s1" "secret") "secret" = true
  ∧ check_password_hash plain_digest
      (generate_password_hash plain_digest "s1" "secret") "Secret" = false.
Proof.
  destruct (check_password_accepts_same_digest plain_digest "s1" "secret" "Secret"
              (User.new "alice" None) {| users := []; quizzes := [] |})
    as (Hsame & _ & Hother & _).
  split; [exact Hsame|]. apply Hother. by vm_compute.
Defined.

(** With a digest that pads the password as an HMAC key, the hash of
    secret verifies another password, secret followed by NUL. *)
Lemma check_password_roundtrip_counterexample :
  "secret" +:+ NUL ≠ "secret"
  ∧ check_password_hash padded_digest
      (generate_password_hash padded_digest "s1" "secret") ("secret" +:+ NUL) = true.
Proof. split; by vm_compute. Qed.

(** A second registration of alice fails, whatever the password. *)
Lemma register_duplicate_username_witness :
  submits (register_request "alice" "other") "alice" "other"
  ∧ "alice" ∈ User.username <$> users (db
      (serve (register plain_digest (register_request "alice" "secret") (healthy "s1"))
         init).2)
  ∧ serve (register plain_digest (register_request "alice" "other") (healthy "s2"))
      (serve (register plain_digest (register_request "alice" "secret") (healthy "s1"))
         init).2
    = DuplicateUsername
        (serve (register plain_digest (register_request "alice" "secret") (healthy "s1"))
           init).2.
Proof.
  split; [by vm_compute|].
  split; [vm_compute; left|].
  apply (register_duplicate_username plain_digest
           (register_request "alice" "other") (healthy "s2") _ "alice" "other").
  - by vm_compute.
  - vm_compute. left.
Defined.

(** A full disk during the registration of alice and during the seeding
    of a fresh deployment. *)
Lemma storage_failure_is_atomic_witness :
  commit_fault (failing "s1" (StorageError "disk full")) = Some (StorageError "disk full")
  ∧ serve (register plain_digest (register_request "alice" "secret")
             (failing "s1" (StorageError "disk full"))) init
    = RegistrationFailure (StorageError "disk full") init
  ∧ serve (add_sample_questions (failing "s1" (StorageError "disk full"))) init
    = SeedingFailure (StorageError "disk full") init.
Proof.
  split; [reflexivity|].
  destruct (storage_failure_is_atomic plain_digest
              (register_request "alice" "secret")
              (failing "s1" (StorageError "disk full")) init "alice" "secret"
              (StorageError "disk full") eq_refl) as (Hregister & Hseed & _).
  split.
  - apply Hregister; [by vm_compute|]. simpl. apply not_elem_of_nil.
  - by apply Hseed.
Defined.

(** The registration of alice in a fresh deployment adds the row 1. *)
Lemma register_adds_one_row_witness :
  submits (register_request "alice" "secret") "alice" "secret"
  ∧ (serve (register plain_digest (register_request "alice" "secret") (healthy "s1"))
       init).1 = Redirect "login"
  ∧ users (db (serve (register plain_digest (register_request "alice" "secret")
                        (healthy "s1")) init).2)
    = [User.mk 1 "alice" (generate_password_hash plain_digest "s1" "secret")].
Proof.
  split; [by vm_compute|].
  split; [by vm_compute|].
  apply (register_adds_one_row plain_digest
           (register_request "alice" "secret") (healthy "s1") init "alice" "secret");
    by vm_compute.
Defined.

(** Two seedings of a fresh deployment. *)
Lemma seed_if_empty_twice_witness :
  quizzes (db init) = []
  ∧ commit_fault (healthy "s1") = None
  ∧ length (quizzes (db (serve (add_sample_questions (healthy "s2"))
                           (serve (add_sample_questions (healthy "s1")) init).2).2)) = 3.
Proof.
  split; [reflexivity|]. split; [reflexivity|].
  apply (seed_if_empty_twice (healthy "s1") (healthy "s2") init); reflexivity.
Defined.

(** * Further properties of the code *)

(** ** Scoring: how scores combine *)

Lemma score_is_count (questions : list Quiz.t) (form : gmap string (list string)) :
  score questions form = length (filter (answered_correctly form) questions).
Proof. unfold score. by rewrite score_loop_count. Qed.

(** X1: the score of a sequence is the sum of the scores of its parts, so
    every question counts on its own, once per occurrence. *)
Theorem score_is_additive
    (part1 part2 : list Quiz.t) (q : Quiz.t) (form : gmap string (list string)) :
  score (part1 ++ part2) form = score part1 form + score part2 form
  ∧ score (q :: part2) form = score [q] form + score part2 form
  ∧ score [] form = 0.
Proof.
  rewrite !score_is_count. split_and!; [|by rewrite <- length_app, <- filter_app|done].
  by rewrite filter_app, length_app.
Qed.

(** X2: the order in which the questions are scored does not matter. *)
Theorem score_of_permutation
    (questions questions' : list Quiz.t) (form : gmap string (list string)) :
  questions ≡ₚ questions' → score questions form = score questions' form.
Proof. intros Hperm. rewrite !score_is_count. by rewrite Hperm. Qed.

Lemma filter_all {A} (P : A → Prop) `{!∀ x, Decision (P x)} (l : list A) :
  length (filter P l) = length l ↔ Forall P l.
Proof.
  induction l as [|a l IH]; [by split|].
  rewrite filter_cons, Forall_cons. case_decide as Ha; simpl.
  - rewrite <- IH. split; [intros [=]; by split|intros [_ ->]; done].
  - pose proof (length_filter P l). split; [lia|by intros [? _]].
Qed.

Lemma filter_none {A} (P : A → Prop) `{!∀ x, Decision (P x)} (l : list A) :
  length (filter P l) = 0 ↔ Forall (λ x, ¬ P x) l.
Proof.
  induction l as [|a l IH]; [by split|].
  rewrite filter_cons, Forall_cons. case_decide as Ha; simpl.
  - split; [done|by intros [? _]].
  - rewrite IH. split; [by split|by intros [_ ?]].
Qed.

(** X3: the score is the number of questions exactly when every question
    is answered correctly, and 0 exactly when none is; an empty form
    scores 0 on every catalog. *)
Theorem score_extremes (questions : list Quiz.t) (form : gmap string (list string)) :
  (score questions form = length questions ↔ Forall (answered_correctly form) questions)
  ∧ (score questions form = 0
     ↔ Forall (λ q, ¬ answered_correctly form q) questions)
  ∧ score questions ∅ = 0.
Proof.
  rewrite !score_is_count. split_and!.
  - apply filter_all.
  - apply filter_none.
  - apply filter_none, Forall_forall. intros q _.
    unfold answered_correctly, form_get. by rewrite lookup_empty.
Qed.

(** ** The names of the form fields *)

Lemma list_ascii_of_string_app (s1 s2 : string) :
  String.list_ascii_of_string (s1 +:+ s2)
  = String.list_ascii_of_string s1 ++ String.list_ascii_of_string s2.
Proof. induction s1 as [|a s1 IH]; simpl; [done|]. by rewrite IH. Qed.

Lemma string_app_inv_tail (s1 s2 t : string) : s1 +:+ t = s2 +:+ t → s1 = s2.
Proof.
  intros Heq. apply (f_equal String.list_ascii_of_string) in Heq.
  rewrite !list_ascii_of_string_app in Heq. apply app_inv_tail in Heq.
  apply (f_equal String.string_of_list_ascii) in Heq.
  by rewrite !String.string_of_list_ascii_of_string in Heq.
Qed.

(** X4: two questions share the name of their form field exactly when
    they share their id, and likewise their [repr]: the answer submitted
    for one question is never read for a question of another id. *)
Theorem field_name_identifies_question (q1 q2 : Quiz.t) :
  (field_name q1 = field_name q2 ↔ Quiz.id q1 = Quiz.id q2)
  ∧ (quiz_repr q1 = quiz_repr q2 ↔ Quiz.id q1 = Quiz.id q2).
Proof.
  split; (split; [|unfold field_name, quiz_repr; by intros ->]).
  - apply field_name_key_inj.
  - unfold quiz_repr. intros Heq. apply (inj (String.app "<Quiz ")) in Heq.
    apply string_app_inv_tail in Heq. by apply (inj pretty).
Qed.

Section Deployment.

Variable digest : string → string → string.

(** ** The views, case by case *)

(** What [logout] does, case by case. *)
Lemma serve_logout (w : World) :
  serve logout w =
    match logged_in_user w with
    | Some _ => (Redirect "home", put_cookie None w)
    | None => (Redirect "login", add_flash "Please log in to access this page." w)
    end.
Proof.
  unfold serve, logout, login_required, logged_in_user.
  unfold mbind, M_bind, mret, M_ret.
  assert (Hctx : (current_user {| world := w; pending := [] |}).2
                 = {| world := w; pending := [] |}).
  { unfold current_user, load_user, query_user_get, get_db, mbind, M_bind, mret, M_ret.
    simpl. by destruct (cookie w). }
  rewrite Hctx.
  by destruct (current_user {| world := w; pending := [] |}).1.
Qed.

(** A form without one of the two fields is refused before any query. *)
Lemma serve_missing_field (request : Request) (env : Env) (w : World) :
  method request = POST →
  form_get (form request) "username" = None
  ∨ form_get (form request) "password" = None →
  serve (register digest request env) w = (BadRequest, w)
  ∧ serve (login digest request) w = (BadRequest, w).
Proof.
  intros Hm Hmissing. unfold serve, register, login. rewrite Hm.
  destruct Hmissing as [-> | ->]; [done|].
  by destruct (form_get (form request) "username").
Qed.

Lemma serve_get_form (request : Request) (env : Env) (w : World) :
  method request = GET →
  serve (register digest request env) w = (RenderTemplate "register.html", w)
  ∧ serve (login digest request) w = (RenderTemplate "login.html", w).
Proof. intros Hm. unfold serve, register, login. by rewrite Hm. Qed.

(** A request to [/register] or [/login] is a GET, lacks a field, or
    submits a username and a password. *)
Lemma request_cases (request : Request) :
  method request = GET
  ∨ (method request = POST
     ∧ (form_get (form request) "username" = None
        ∨ form_get (form request) "password" = None))
  ∨ ∃ u p, submits request u p.
Proof.
  destruct (method request) eqn:Hm; [by left|]. right.
  destruct (form_get (form request) "username") as [u|] eqn:Hu; [|left; auto].
  destruct (form_get (form request) "password") as [p|] eqn:Hp; [|left; auto].
  right. by exists u, p.
Qed.

Lemma register_step (request : Request) (env : Env) (w : World) :
  path request = "/register" →
  step digest request env w (serve (register digest request env) w).
Proof.
  intros Hpath.
  destruct (request_cases request) as [Hget|[[Hpost Hmissing]|(u & p & Hsub)]].
  - rewrite (proj1 (serve_get_form request env w Hget)). constructor.
  - rewrite (proj1 (serve_missing_field request env w Hpost Hmissing)). constructor.
  - rewrite (serve_register digest request env w u p Hsub).
    destruct (head (filter _ (users (db w)))) as [existing|] eqn:Hhead.
    { apply step_flash; [done|]. by intros [_ ?]. }
    destruct (commit_fault env) as [e|] eqn:Hfault.
    { by apply step_register_failed. }
    apply step_registered; [done..| |done]. by apply no_user_named.
Qed.

Lemma login_step (request : Request) (env : Env) (w : World) :
  path request = "/login" →
  step digest request env w (serve (login digest request) w).
Proof.
  intros Hpath.
  assert (Hother : ∀ r, ¬ (path request = "/register" ∧ r = Redirect "login")).
  { intros r [Hr _]. by rewrite Hpath in Hr. }
  destruct (request_cases request) as [Hget|[[Hpost Hmissing]|(u & p & Hsub)]].
  - rewrite (proj2 (serve_get_form request env w Hget)). constructor.
  - rewrite (proj2 (serve_missing_field request env w Hpost Hmissing)). constructor.
  - rewrite (serve_login digest request w u p Hsub).
    destruct (head (filter _ (users (db w)))) as [user|] eqn:Hhead.
    + destruct (check_password digest user p).
      * apply step_login; [done|]. by apply head_filter_Some in Hhead as [? _].
      * by apply step_flash.
    + by apply step_flash.
Qed.

(** Every request changes the world in one of the ways of [step]. *)
Lemma app_step (request : Request) (env : Env) (w : World) :
  step digest request env w (app digest request env w).
Proof.
  unfold app, dispatch.
  case_bool_decide as Hregister; [by apply register_step|].
  assert (Hother : ∀ r, ¬ (path request = "/register" ∧ r = Redirect "login")).
  { by intros r [? _]. }
  case_bool_decide as Hlogin; [by apply login_step|].
  case_bool_decide as Hlogout.
  { destruct (method request); [|constructor]. rewrite serve_logout.
    destruct (logged_in_user w); [by apply step_logout|by apply step_flash]. }
  case_bool_decide as Hhome.
  { destruct (method request); constructor. }
  case_bool_decide as Hseed.
  { destruct (method request) eqn:Hm; [|constructor].
    rewrite serve_add_sample_questions.
    destruct (quizzes (db w)) as [|q qs] eqn:Hq; [|constructor].
    destruct (commit_fault env) as [e|] eqn:Hfault.
    - by apply step_seed_failed.
    - by apply step_seeded. }
  case_bool_decide as Hquiz; [|constructor].
  rewrite serve_quiz. destruct (logged_in_user w); [|by apply step_flash].
  destruct (method request); [constructor|by apply step_flash].
Qed.

(** ** The ids of the rows *)

Lemma foldr_max_bound (b : Z) (l : list Z) :
  (∀ j, j ∈ l → (j ≤ b)%Z) → foldr Z.max b l = b.
Proof.
  induction l as [|a l IH]; intros Hle; simpl; [done|].
  rewrite IH by (intros j Hj; apply Hle; by right).
  specialize (Hle a ltac:(left)). lia.
Qed.

(** A row that goes after rows of smaller ids sets the next id. *)
Lemma next_id_snoc (l : list Z) (x : Z) :
  (∀ j, j ∈ l → (j < x)%Z) → next_id (l ++ [x]) = (1 + x)%Z.
Proof.
  intros Hlt. destruct l as [|i rest]; simpl; [done|].
  rewrite foldr_app. simpl. rewrite foldr_max_bound.
  - specialize (Hlt i ltac:(left)). lia.
  - intros j Hj. specialize (Hlt j ltac:(by right)). lia.
Qed.

Lemma next_id_seqZ (n : nat) : next_id (seqZ 1 (Z.of_nat n)) = (1 + Z.of_nat n)%Z.
Proof.
  destruct n as [|n]; [done|].
  rewrite seqZ_S, next_id_snoc; [lia|].
  intros j Hj%elem_of_seqZ. lia.
Qed.

(** With a unique key, the query by key finds the row that holds it. *)
Lemma find_by_unique_key {A K} `{EqDecision K} (key : A → K) (l : list A) (x : A) :
  NoDup (key <$> l) → x ∈ l →
  head (filter (λ y, key y = key x) l) = Some x.
Proof.
  induction l as [|a l IH]; [by intros _ ?%not_elem_of_nil|].
  rewrite fmap_cons, NoDup_cons. intros [Hfresh Hnodup] Hin.
  rewrite filter_cons. apply elem_of_cons in Hin as [->|Hin].
  - by rewrite decide_True.
  - rewrite decide_False; [by apply IH|].
    intros Heq. apply Hfresh. rewrite Heq. by apply list_elem_of_fmap_2.
Qed.

Lemma head_filter_prefix {A} (P : A → Prop) `{!∀ x, Decision (P x)}
    (l k : list A) (x : A) :
  head (filter P l) = Some x → head (filter P (l ++ k)) = Some x.
Proof. rewrite filter_app. by destruct (filter P l). Qed.

Lemma logged_in_user_eq (w : World) :
  logged_in_user w
  = cookie w ≫= λ i, head (filter (λ user, User.id user = i) (users (db w))).
Proof.
  unfold logged_in_user, current_user, load_user, query_user_get.
  unfold mbind at 1, M_bind, get_db, mret, M_ret. simpl. by destruct (cookie w).
Qed.

(** ** The invariant of a deployment *)

Lemma world_inv_init : world_inv init.
Proof. split_and!; simpl; [done|constructor|done|by left]. Qed.

Lemma step_world_inv (request : Request) (env : Env) (w : World) (rw : Response * World) :
  step digest request env w rw → world_inv w → world_inv rw.2.
Proof.
  intros Hstep (Hids & Hnames & Hcookie & Hcatalog).
  destruct Hstep as [r|r message _ _|user _ Hin| |u p _ _ Hnew _|e _ _| |e _ _];
    unfold world_inv; simpl; try done.
  - split_and!; [done..| |done]. intros i [= <-]. by apply list_elem_of_fmap_2.
  - split_and!; [| | |done].
    + rewrite fmap_app, length_app. simpl. rewrite Hids.
      rewrite next_id_seqZ, Nat.add_1_r, seqZ_S. f_equal.
    + rewrite fmap_app. apply NoDup_app. split_and!; [done| |apply NoDup_singleton].
      by intros x Hx ->%list_elem_of_singleton.
    + intros i Hi. rewrite fmap_app. apply elem_of_app. left. by apply Hcookie.
  - split_and!; [done..|by right].
Qed.

Lemma run_cons (ev : Request * Env) (events : list (Request * Env)) (w : World) :
  run digest (ev :: events) w = run digest events (app digest ev.1 ev.2 w).2.
Proof. done. Qed.

Lemma run_world_inv (events : list (Request * Env)) (w : World) :
  world_inv w → world_inv (run digest events w).
Proof.
  revert w. induction events as [|ev events IH]; intros w Hinv; [done|].
  rewrite run_cons. apply IH.
  by apply (step_world_inv ev.1 ev.2 w _ (app_step ev.1 ev.2 w)).
Qed.

Lemma deployed_world_inv (events : list (Request * Env)) :
  world_inv (deployed digest events).
Proof. apply run_world_inv, world_inv_init. Qed.

(** X5: in a deployment the users carry the ids 1, 2, ... in the order
    of their registration (the row at position [k] has the id [k + 1]),
    and neither an id nor a username occurs twice. *)
Theorem user_ids_are_consecutive (events : list (Request * Env)) :
  User.id <$> users (db (deployed digest events))
  = seqZ 1 (Z.of_nat (length (users (db (deployed digest events)))))
  ∧ (∀ (k : nat) user,
       users (db (deployed digest events)) !! k = Some user →
       User.id user = (Z.of_nat k + 1)%Z)
  ∧ NoDup (User.id <$> users (db (deployed digest events)))
  ∧ NoDup (User.username <$> users (db (deployed digest events))).
Proof.
  destruct (deployed_world_inv events) as (Hids & Hnames & _ & _).
  split_and!; [done| |by rewrite Hids; apply NoDup_seqZ|done].
  intros k user Hk.
  assert (Hid : (User.id <$> users (db (deployed digest events))) !! k
                = Some (User.id user)) by by rewrite list_lookup_fmap, Hk.
  rewrite Hids in Hid. apply lookup_seqZ in Hid as [-> _]. lia.
Qed.

(** X6: in a deployment the login cookie, when set, holds the id of a
    user of the table, whom [load_user] finds: the client is anonymous
    exactly when the cookie is not set. *)
Theorem session_cookie_names_a_user (events : list (Request * Env)) :
  (∀ i, cookie (deployed digest events) = Some i →
     ∃ user, logged_in_user (deployed digest events) = Some user
             ∧ User.id user = i
             ∧ user ∈ users (db (deployed digest events)))
  ∧ (logged_in_user (deployed digest events) = None
     ↔ cookie (deployed digest events) = None).
Proof.
  destruct (deployed_world_inv events) as (Hids & _ & Hcookie & _).
  assert (Hfound : ∀ i, cookie (deployed digest events) = Some i →
    ∃ user, logged_in_user (deployed digest events) = Some user
            ∧ User.id user = i ∧ user ∈ users (db (deployed digest events))).
  { intros i Hi. pose proof (Hcookie i Hi) as Hmem.
    apply list_elem_of_fmap in Hmem as (user & -> & Hin).
    exists user. split_and!; [|done..].
    rewrite logged_in_user_eq, Hi. simpl.
    apply (find_by_unique_key User.id); [|done]. rewrite Hids. apply NoDup_seqZ. }
  split; [done|]. split.
  - intros Hnone. destruct (cookie (deployed digest events)) as [i|] eqn:Hi; [|done].
    destruct (Hfound i eq_refl) as (user & Huser & _). congruence.
  - intros Hnone. by rewrite logged_in_user_eq, Hnone.
Qed.

(** X7: in a deployment a successful login binds the session to the row
    of the submitted username: the cookie holds its id, its stored hash
    verifies the submitted password, and it is the current user of the
    next request. *)
Theorem login_sets_current_user
    (events : list (Request * Env)) (request : Request) (u p : string) :
  submits request u p →
  (serve (login digest request) (deployed digest events)).1 = Redirect "home" →
  ∃ user,
    user ∈ users (db (deployed digest events))
    ∧ User.username user = u
    ∧ check_password digest user p = true
    ∧ (serve (login digest request) (deployed digest events)).2
      = put_cookie (Some (User.id user)) (deployed digest events)
    ∧ logged_in_user (serve (login digest request) (deployed digest events)).2
      = Some user.
Proof.
  intros Hsub. destruct (deployed_world_inv events) as (Hids & _ & _ & _).
  rewrite (serve_login digest request (deployed digest events) u p Hsub).
  destruct (head (filter _ _)) as [user|] eqn:Hhead; [|done].
  destruct (check_password digest user p) eqn:Hcheck; [|done]. intros _.
  apply head_filter_Some in Hhead as [Hin Hname].
  exists user. split_and!; [done..|].
  rewrite logged_in_user_eq. simpl.
  apply (find_by_unique_key User.id); [|done]. rewrite Hids. apply NoDup_seqZ.
Qed.

(** X8: the catalog of a deployment is empty or holds exactly the three
    sample questions, so no submission scores more than 3. *)
Theorem deployed_catalog
    (events : list (Request * Env)) (form : gmap string (list string)) :
  (quizzes (db (deployed digest events)) = []
   ∨ quizzes (db (deployed digest events)) = seeded_catalog)
  ∧ score (quizzes (db (deployed digest events))) form ≤ 3.
Proof.
  destruct (deployed_world_inv events) as (_ & _ & _ & Hcatalog).
  split; [done|].
  pose proof (length_filter (answered_correctly form)
                (quizzes (db (deployed digest events)))) as Hle.
  assert (Hlen : length (quizzes (db (deployed digest events))) ≤ 3).
  { destruct Hcatalog as [-> | ->]; simpl; lia. }
  rewrite score_is_count. lia.
Qed.

(** ** The routes *)

Lemma app_register (request : Request) (env : Env) (w : World) :
  path request = "/register" →
  app digest request env w = serve (register digest request env) w.
Proof. intros Hpath. unfold app, dispatch. by rewrite Hpath. Qed.

Lemma app_login (request : Request) (env : Env) (w : World) :
  path request = "/login" →
  app digest request env w = serve (login digest request) w.
Proof. intros Hpath. unfold app, dispatch. by rewrite Hpath. Qed.

Lemma app_quiz (request : Request) (env : Env) (w : World) :
  path request = "/quiz" →
  app digest request env w = serve (quiz request) w.
Proof. intros Hpath. unfold app, dispatch. by rewrite Hpath. Qed.

Lemma head_filter_app_None {A} (P : A → Prop) `{!∀ x, Decision (P x)} (l k : list A) :
  head (filter P l) = None → head (filter P (l ++ k)) = head (filter P k).
Proof. rewrite filter_app. by destruct (filter P l). Qed.

(** X9: whatever the world, a login with the credentials of a
    registration that just succeeded succeeds, and the new row is then the
    current user. *)
Theorem register_then_login
    (request_r request_l : Request) (env : Env) (w : World) (u p : string) :
  submits request_r u p →
  submits request_l u p →
  (serve (register digest request_r env) w).1 = Redirect "login" →
  (serve (login digest request_l) (serve (register digest request_r env) w).2).1
  = Redirect "home"
  ∧ logged_in_user
      (serve (login digest request_l) (serve (register digest request_r env) w).2).2
    = Some (new_row digest u p env w).
Proof.
  intros Hsub_r Hsub_l.
  rewrite (serve_register digest request_r env w u p Hsub_r).
  destruct (head (filter _ (users (db w)))) as [existing|] eqn:Hhead; [done|].
  destruct (commit_fault env) as [e|]; [done|]. intros _.
  rewrite (serve_login digest request_l _ u p Hsub_l). simpl.
  rewrite (head_filter_app_None _ _ _ Hhead), filter_cons. simpl.
  rewrite decide_True by done. simpl.
  assert (Hcheck : check_password digest (new_row digest u p env w) p = true).
  { unfold check_password, check_password_hash. simpl. by apply bool_decide_eq_true_2. }
  rewrite Hcheck. split; [done|].
  rewrite logged_in_user_eq. simpl.
  rewrite head_filter_app_None, filter_cons; [by rewrite decide_True|].
  apply head_filter_None. intros user Hin Hid.
  apply (list_elem_of_fmap_2 User.id), next_id_above in Hin. lia.
Qed.

(** X10: the quiz is served to a logged-in client only; an anonymous
    client is sent to the login page and gets neither the questions nor a
    score, whatever the method and the form. *)
Theorem quiz_requires_login (request : Request) (env : Env) (w : World) :
  path request = "/quiz" →
  ((∃ questions score, (app digest request env w).1 = RenderQuiz questions score)
   ↔ is_Some (logged_in_user w))
  ∧ (logged_in_user w = None →
       app digest request env w
       = (Redirect "login", add_flash "Please log in to access this page." w)).
Proof.
  intros Hpath. rewrite (app_quiz request env w Hpath), serve_quiz.
  destruct (logged_in_user w) as [user|]; split.
  - split; [by eexists|]. intros _. destruct (method request); by eexists _, _.
  - done.
  - split; [by intros (? & ? & ?)|by intros [? ?]].
  - done.
Qed.

(** X11: after a logout the client is anonymous, whoever it was before,
    the store is untouched, and the next request for the quiz is sent to
    the login page; the logout answers with the home page exactly when
    somebody was logged in. *)
Theorem logout_makes_anonymous (request : Request) (w : World) :
  logged_in_user (serve logout w).2 = None
  ∧ db (serve logout w).2 = db w
  ∧ ((serve logout w).1 = Redirect "home" ↔ is_Some (logged_in_user w))
  ∧ (serve (quiz request) (serve logout w).2).1 = Redirect "login".
Proof.
  assert (Hanon : logged_in_user (serve logout w).2 = None).
  { rewrite serve_logout. destruct (logged_in_user w) as [user|] eqn:Huser; [done|].
    simpl. rewrite logged_in_user_eq in Huser |- *. done. }
  split_and!; [done| | |].
  - rewrite serve_logout. by destruct (logged_in_user w).
  - rewrite serve_logout. by destruct (logged_in_user w).
  - by rewrite serve_quiz, Hanon.
Qed.

(** ** What a request may change *)

(** X12: a request leaves the store as it is unless it is a successful
    registration, which appends one user and leaves the catalog, or a
    successful seeding of an empty catalog, which leaves the users: no
    other route, and no failed request, writes. *)
Theorem store_written_by_register_and_seed (request : Request) (env : Env) (w : World) :
  db (app digest request env w).2 = db w
  ∨ (path request = "/register" ∧ method request = POST
     ∧ (app digest request env w).1 = Redirect "login"
     ∧ quizzes (db (app digest request env w).2) = quizzes (db w)
     ∧ ∃ row, users (db (app digest request env w).2) = users (db w) ++ [row])
  ∨ (path request = "/add_sample_questions" ∧ method request = GET
     ∧ (app digest request env w).1 = Text "Sample questions added!"
     ∧ users (db (app digest request env w).2) = users (db w)
     ∧ quizzes (db w) = []
     ∧ quizzes (db (app digest request env w).2) = seeded_catalog).
Proof.
  destruct (app_step request env w)
    as [r|r message _ _|user _ _| |u p Hpath [Hm _] _ _|e _ _|Hpath Hm Hq _|e _ _];
    simpl; auto.
  - right; left. split_and!; [done..|]. by eexists.
  - right; right. by split_and!.
Qed.

(** X13: a request leaves the login cookie as it is unless it is a
    successful login, which sets it to the id of a user of the table, or
    a logout of a logged-in client; a registration does not log in. *)
Theorem cookie_changed_by_login_and_logout (request : Request) (env : Env) (w : World) :
  cookie (app digest request env w).2 = cookie w
  ∨ (path request = "/login"
     ∧ (app digest request env w).1 = Redirect "home"
     ∧ ∃ user, user ∈ users (db w)
               ∧ cookie (app digest request env w).2 = Some (User.id user))
  ∨ (path request = "/logout"
     ∧ (app digest request env w).1 = Redirect "home"
     ∧ cookie (app digest request env w).2 = None).
Proof.
  destruct (app_step request env w)
    as [r|r message _ _|user Hpath Hin|Hpath|u p _ _ _ _|e _ _| |e _ _];
    simpl; auto.
  right; left. split_and!; [done..|]. by exists user.
Qed.

(** X14: a POST to [/register] or [/login] whose form lacks the username
    or the password is a bad request: nothing is queried, written, flashed
    or logged. *)
Theorem missing_field_is_bad_request (request : Request) (env : Env) (w : World) :
  path request = "/register" ∨ path request = "/login" →
  method request = POST →
  form_get (form request) "username" = None
  ∨ form_get (form request) "password" = None →
  app digest request env w = (BadRequest, w).
Proof.
  intros [Hpath|Hpath] Hm Hmissing.
  - rewrite (app_register request env w Hpath).
    apply (serve_missing_field request env w Hm Hmissing).
  - rewrite (app_login request env w Hpath).
    apply (serve_missing_field request env w Hm Hmissing).
Qed.

(** X15: a registration that submits both fields has three outcomes: the
    username is taken and it fails with [DuplicateUsername]; or the commit
    raises the fault of the environment; or it succeeds.  The check of
    line 54 leaves the constraints of the table nothing to refuse: without
    a fault, a registration of a new username always succeeds. *)
Theorem registration_outcomes
    (request : Request) (env : Env) (w : World) (u p : string) :
  submits request u p →
  (u ∈ User.username <$> users (db w)
   ∧ serve (register digest request env) w = DuplicateUsername w)
  ∨ ((u ∉ User.username <$> users (db w))
     ∧ ∃ e, commit_fault env = Some e
            ∧ serve (register digest request env) w = RegistrationFailure e w)
  ∨ ((u ∉ User.username <$> users (db w))
     ∧ commit_fault env = None
     ∧ (serve (register digest request env) w).1 = Redirect "login"
     ∧ log (serve (register digest request env) w).2 = log w).
Proof.
  intros Hsub. rewrite (serve_register digest request env w u p Hsub).
  destruct (head (filter _ (users (db w)))) as [existing|] eqn:Hhead.
  - left. split; [|done]. apply head_filter_Some in Hhead as [Hin <-].
    by apply list_elem_of_fmap_2.
  - apply no_user_named in Hhead. right.
    destruct (commit_fault env) as [e|]; [left|right]; split; [done| |done|done].
    by exists e.
Qed.

(** ** Over sequences of requests *)

Lemma step_users_prefix (request : Request) (env : Env) (w : World)
    (rw : Response * World) :
  step digest request env w rw → users (db w) `prefix_of` users (db rw.2).
Proof.
  intros [r|r message _ _|user _ _| |u p _ _ _ _|e _ _| |e _ _]; simpl; try done.
  by eexists.
Qed.

Lemma run_users_prefix (events : list (Request * Env)) (w : World) :
  users (db w) `prefix_of` users (db (run digest events w)).
Proof.
  revert w. induction events as [|ev events IH]; intros w; [done|].
  rewrite run_cons. etrans; [|apply IH].
  apply (step_users_prefix ev.1 ev.2 w _ (app_step ev.1 ev.2 w)).
Qed.

(** X16: no sequence of requests removes or alters a user: the users
    table after it starts with the rows it had, in their order, with
    their ids, usernames and stored hashes. *)
Theorem users_are_append_only (events : list (Request * Env)) (w : World) :
  users (db w) `prefix_of` users (db (run digest events w))
  ∧ (∀ (k : nat) row, users (db w) !! k = Some row →
       users (db (run digest events w)) !! k = Some row)
  ∧ length (users (db w)) ≤ length (users (db (run digest events w))).
Proof.
  pose proof (run_users_prefix events w) as Hprefix. split_and!.
  - done.
  - intros k row Hk. by apply (prefix_lookup_Some _ _ _ _ Hk).
  - by apply prefix_length.
Qed.

(** X17: once a username is in the table, the answer to a login with it
    never changes, whatever is requested in between: a password that
    opens the account keeps opening it and one that does not never will
    (no route changes a password or removes an account). *)
Theorem login_outcome_is_stable
    (events : list (Request * Env)) (w : World) (request : Request) (u p : string) :
  submits request u p →
  u ∈ User.username <$> users (db w) →
  (serve (login digest request) (run digest events w)).1
  = (serve (login digest request) w).1.
Proof.
  intros Hsub Hin.
  rewrite !(serve_login digest request _ u p Hsub).
  destruct (run_users_prefix events w) as [more ->].
  destruct (head (filter _ (users (db w)))) as [user|] eqn:Hhead.
  - rewrite (head_filter_prefix _ _ more _ Hhead).
    by destruct (check_password digest user p).
  - by apply no_user_named in Hhead.
Qed.

Lemma step_catalog_frozen (request : Request) (env : Env) (w : World)
    (rw : Response * World) :
  step digest request env w rw → quizzes (db w) ≠ [] →
  quizzes (db rw.2) = quizzes (db w).
Proof.
  by intros [r|r message _ _|user _ _| |u p _ _ _ _|e _ _|_ _ Hq _|e _ _] Hne.
Qed.

(** X18: a catalog that holds a question is never changed again: no
    sequence of requests adds, removes or alters a question, so a second
    seeding can never duplicate the samples. *)
Theorem catalog_is_frozen_once_filled (events : list (Request * Env)) (w : World) :
  quizzes (db w) ≠ [] →
  quizzes (db (run digest events w)) = quizzes (db w).
Proof.
  revert w. induction events as [|ev events IH]; intros w Hne; [done|].
  rewrite run_cons.
  pose proof (step_catalog_frozen ev.1 ev.2 w _ (app_step ev.1 ev.2 w) Hne) as Hstep.
  rewrite IH; [done|]. by rewrite Hstep.
Qed.

Lemma step_log (request : Request) (env : Env) (w : World) (rw : Response * World) :
  step digest request env w rw →
  log rw.2 = log w
  ∨ ∃ prefix e, commit_fault env = Some e
                ∧ log rw.2 = log w ++ [{| log_prefix := prefix; log_cause := e |}].
Proof.
  intros [r|r message _ _|user _ _| |u p _ _ _ _|e _ He| |e _ He]; simpl; auto;
    right; by eexists _, _.
Qed.

Lemma injected_faults_cons (ev : Request * Env) (events : list (Request * Env)) :
  injected_faults (ev :: events)
  = match commit_fault ev.2 with
    | Some e => e :: injected_faults events
    | None => injected_faults events
    end.
Proof. done. Qed.

Lemma injected_faults_healthy (events : list (Request * Env)) :
  Forall (λ ev : Request * Env, commit_fault ev.2 = None) events →
  injected_faults events = [].
Proof.
  induction 1 as [|ev evs Hev _ IH]; [done|].
  by rewrite injected_faults_cons, Hev.
Qed.

(** The causes logged along a sequence of requests are faults of its
    requests, in their order. *)
Lemma run_log (events : list (Request * Env)) (w : World) :
  ∃ more, log_cause <$> log (run digest events w) = (log_cause <$> log w) ++ more
          ∧ more `sublist_of` injected_faults events.
Proof.
  revert w. induction events as [|ev events IH]; intros w.
  { exists []. by rewrite app_nil_r. }
  rewrite run_cons. destruct (IH (app digest ev.1 ev.2 w).2) as (more & -> & Hsub).
  rewrite injected_faults_cons.
  destruct (step_log ev.1 ev.2 w _ (app_step ev.1 ev.2 w))
    as [->|(prefix & e & -> & ->)].
  - exists more. split; [done|].
    destruct (commit_fault ev.2); [by apply sublist_cons|done].
  - exists (e :: more). rewrite fmap_app, <- app_assoc. split; [done|].
    by apply sublist_skip.
Qed.

(** X19: every exception in the log of a deployment is a fault that the
    persistence layer raised in one of its requests, in the order of the
    requests: the application itself never causes an error to be logged,
    and a deployment without faults has an empty log. *)
Theorem logged_errors_are_storage_faults (events : list (Request * Env)) :
  log_cause <$> log (deployed digest events) `sublist_of` injected_faults events
  ∧ length (log (deployed digest events)) ≤ length (injected_faults events)
  ∧ (Forall (λ ev : Request * Env, commit_fault ev.2 = None) events →
       log (deployed digest events) = []).
Proof.
  destruct (run_log events init) as (more & Hlog & Hsub). simpl in Hlog.
  fold (deployed digest events) in Hlog. rewrite <- Hlog in Hsub.
  split_and!.
  - done.
  - apply sublist_length in Hsub. by rewrite length_fmap in Hsub.
  - intros Hhealthy.
    rewrite (injected_faults_healthy events Hhealthy) in Hsub. apply sublist_nil_r in Hsub.
    by apply fmap_nil_inv in Hsub.
Qed.

End Deployment.

(** ** The constraints of the users table *)

Lemma insert_keeps_unique (p : Pending) (d d' : Db) :
  insert p d = inr d' →
  NoDup (User.username <$> users d) →
  NoDup (User.username <$> users d')
  ∧ users d `prefix_of` users d'
  ∧ quizzes d `prefix_of` quizzes d'
  ∧ length (users d') + length (quizzes d') = S (length (users d) + length (quizzes d)).
Proof.
  destruct p as [u|q]; simpl.
  - unfold insert_user. destruct (User.new_password u) as [h|]; [|done].
    case_bool_decide as Hnew; [done|]. intros [= <-] Hnodup. simpl.
    split_and!; [|by eexists|done|rewrite length_app; simpl; lia].
    rewrite fmap_app. apply NoDup_app. split_and!; [done| |apply NoDup_singleton].
    by intros x Hx ->%list_elem_of_singleton.
  - unfold insert_quiz. intros [= <-] Hnodup. simpl.
    split_and!; [done|done|by eexists|rewrite length_app; simpl; lia].
Qed.

(** X20: a commit that goes through inserts one row per pending object,
    after the rows that were there, and never leaves two users under one
    username ([unique=True], line 32), whatever was added to the session. *)
Theorem commit_keeps_usernames_unique (ps : list Pending) (d d' : Db) :
  flush ps d = inr d' →
  NoDup (User.username <$> users d) →
  NoDup (User.username <$> users d')
  ∧ users d `prefix_of` users d'
  ∧ quizzes d `prefix_of` quizzes d'
  ∧ length (users d') + length (quizzes d')
    = length (users d) + length (quizzes d) + length ps.
Proof.
  revert d. induction ps as [|p ps IH]; intros d; simpl.
  - intros [= <-] Hnodup. split_and!; [done..|lia].
  - destruct (insert p d) as [e|d1] eqn:Hinsert; [done|]. intros Hflush Hnodup.
    destruct (insert_keeps_unique p d d1 Hinsert Hnodup) as (Hn1 & Hu1 & Hq1 & Hl1).
    destruct (IH d1 Hflush Hn1) as (Hn & Hu & Hq & Hl).
    split_and!; [done|by etrans|by etrans|lia].
Qed.

(** ** The further properties on a concrete deployment *)

(** The two orders of the first two sample questions. *)
Lemma score_of_permutation_witness :
  take 2 seeded_catalog ≡ₚ reverse (take 2 seeded_catalog)
  ∧ score (take 2 seeded_catalog) (answers_form {[ 1%Z := "C" ]})
    = score (reverse (take 2 seeded_catalog)) (answers_form {[ 1%Z := "C" ]}).
Proof.
  split; [apply perm_swap|].
  apply (score_of_permutation (take 2 seeded_catalog)
           (reverse (take 2 seeded_catalog))).
  apply perm_swap.
Defined.

(** Alice logs in after her registration. *)
Lemma login_sets_current_user_witness :
  submits (login_request "alice" "secret") "alice" "secret"
  ∧ (serve (login plain_digest (login_request "alice" "secret"))
       (deployed plain_digest [(register_request "alice" "secret", healthy "s1")])).1
    = Redirect "home"
  ∧ ∃ user,
      user ∈ users (db (deployed plain_digest
                          [(register_request "alice" "secret", healthy "s1")]))
      ∧ User.username user = "alice"
      ∧ check_password plain_digest user "secret" = true
      ∧ (serve (login plain_digest (login_request "alice" "secret"))
           (deployed plain_digest [(register_request "alice" "secret", healthy "s1")])).2
        = put_cookie (Some (User.id user))
            (deployed plain_digest [(register_request "alice" "secret", healthy "s1")])
      ∧ logged_in_user
          (serve (login plain_digest (login_request "alice" "secret"))
             (deployed plain_digest
                [(register_request "alice" "secret", healthy "s1")])).2
        = Some user.
Proof.
  split; [by vm_compute|]. split; [by vm_compute|].
  apply (login_sets_current_user plain_digest
           [(register_request "alice" "secret", healthy "s1")]
           (login_request "alice" "secret") "alice" "secret"); by vm_compute.
Defined.

(** Alice registers in a fresh deployment and logs in. *)
Lemma register_then_login_witness :
  submits (register_request "alice" "secret") "alice" "secret"
  ∧ submits (login_request "alice" "secret") "alice" "secret"
  ∧ (serve (register plain_digest (register_request "alice" "secret") (healthy "s1"))
       init).1 = Redirect "login"
  ∧ (serve (login plain_digest (login_request "alice" "secret"))
       (serve (register plain_digest (register_request "alice" "secret") (healthy "s1"))
          init).2).1 = Redirect "home".
Proof.
  split; [by vm_compute|]. split; [by vm_compute|]. split; [by vm_compute|].
  apply (register_then_login plain_digest
           (register_request "alice" "secret") (login_request "alice" "secret")
           (healthy "s1") init "alice" "secret"); by vm_compute.
Defined.

(** An anonymous client asks for the quiz of a fresh deployment. *)
Lemma quiz_requires_login_witness :
  path (get_request "/quiz") = "/quiz"
  ∧ app plain_digest (get_request "/quiz") (healthy "s1") init
    = (Redirect "login", add_flash "Please log in to access this page." init).
Proof.
  split; [reflexivity|].
  apply (quiz_requires_login plain_digest (get_request "/quiz") (healthy "s1") init);
    reflexivity.
Defined.

(** A registration form without password. *)
Lemma missing_field_is_bad_request_witness :
  method {| path := "/register"; method := POST;
            form := {[ "username" := ["alice"] ]} |} = POST
  ∧ form_get {[ "username" := ["alice"] ]} "password" = None
  ∧ app plain_digest
      {| path := "/register"; method := POST; form := {[ "username" := ["alice"] ]} |}
      (healthy "s1") init
    = (BadRequest, init).
Proof.
  split; [reflexivity|]. split; [by vm_compute|].
  apply (missing_field_is_bad_request plain_digest
           {| path := "/register"; method := POST;
              form := {[ "username" := ["alice"] ]} |} (healthy "s1") init).
  - by left.
  - reflexivity.
  - right. by vm_compute.
Defined.

(** The registration of alice in a fresh deployment is of the third kind. *)
Lemma registration_outcomes_witness :
  submits (register_request "alice" "secret") "alice" "secret"
  ∧ (serve (register plain_digest (register_request "alice" "secret") (healthy "s1"))
       init).1 = Redirect "login".
Proof.
  split; [by vm_compute|].
  destruct (registration_outcomes plain_digest
              (register_request "alice" "secret") (healthy "s1") init
              "alice" "secret") as [[Hin _]|[(_ & e & He & _)|(_ & _ & Hok & _)]].
  - by vm_compute.
  - simpl in Hin. by apply not_elem_of_nil in Hin.
  - discriminate He.
  - exact Hok.
Defined.

(** Alice's login keeps failing with a wrong password while bob registers
    and the catalog is seeded. *)
Lemma login_outcome_is_stable_witness :
  submits (login_request "alice" "guess") "alice" "guess"
  ∧ "alice" ∈ User.username <$> users (db
      (deployed plain_digest [(register_request "alice" "secret", healthy "s1")]))
  ∧ (serve (login plain_digest (login_request "alice" "guess"))
       (run plain_digest
          [(register_request "bob" "pw", healthy "s2");
           (get_request "/add_sample_questions", healthy "s3")]
          (deployed plain_digest [(register_request "alice" "secret", healthy "s1")]))).1
    = (serve (login plain_digest (login_request "alice" "guess"))
         (deployed plain_digest [(register_request "alice" "secret", healthy "s1")])).1.
Proof.
  split; [by vm_compute|]. split; [vm_compute; left|].
  apply (login_outcome_is_stable plain_digest
           [(register_request "bob" "pw", healthy "s2");
            (get_request "/add_sample_questions", healthy "s3")]
           (deployed plain_digest [(register_request "alice" "secret", healthy "s1")])
           (login_request "alice" "guess") "alice" "guess").
  - by vm_compute.
  - vm_compute. left.
Defined.

(** A second seeding of a seeded deployment. *)
Lemma catalog_is_frozen_once_filled_witness :
  quizzes (db (deployed plain_digest
                 [(get_request "/add_sample_questions", healthy "s1")])) ≠ []
  ∧ quizzes (db (run plain_digest
                   [(get_request "/add_sample_questions", healthy "s2")]
                   (deployed plain_digest
                      [(get_request "/add_sample_questions", healthy "s1")])))
    = quizzes (db (deployed plain_digest
                     [(get_request "/add_sample_questions", healthy "s1")])).
Proof.
  split; [by vm_compute|].
  apply (catalog_is_frozen_once_filled plain_digest
           [(get_request "/add_sample_questions", healthy "s2")]
           (deployed plain_digest [(get_request "/add_sample_questions", healthy "s1")])).
  by vm_compute.
Defined.

(** The commit of one new user and one question into an empty store. *)
Lemma commit_keeps_usernames_unique_witness :
  flush [PendingUser (User.new "alice" (Some (generate_password_hash plain_digest "s1" "secret")));
         PendingQuiz (Quiz.new "What is 2 + 2?" "3" "4" "5" "6" "B")]
    {| users := []; quizzes := [] |}
  = inr {| users := [User.mk 1 "alice" (generate_password_hash plain_digest "s1" "secret")];
           quizzes := [Quiz.mk 1 "What is 2 + 2?" "3" "4" "5" "6" "B"] |}
  ∧ NoDup (User.username <$> users {| users := []; quizzes := [] |})
  ∧ NoDup (User.username <$>
             [User.mk 1 "alice" (generate_password_hash plain_digest "s1" "secret")]).
Proof.
  split; [reflexivity|]. split; [constructor|].
  apply (commit_keeps_usernames_unique
           [PendingUser (User.new "alice"
                           (Some (generate_password_hash plain_digest "s1" "secret")));
            PendingQuiz (Quiz.new "What is 2 + 2?" "3" "4" "5" "6" "B")]
           {| users := []; quizzes := [] |}
           {| users := [User.mk 1 "alice"
                          (generate_password_hash plain_digest "s1" "secret")];
              quizzes := [Quiz.mk 1 "What is 2 + 2?" "3" "4" "5" "6" "B"] |}).
  - reflexivity.
  - constructor.
Defined.
